(** * domainlookup: bulk RDAP domain lookups with bounded concurrency

    A shallow embedding of [cmd/domainlookup/domainlookup.go]:
    - the registry directory built by [RdapDNS.LookupMap];
    - the helpers [topdomain], [rdapLookupURL] and [queryRdap];
    - the body of one lookup goroutine (lines 171-204 of [Start]);
    - [LookupWorker.Start] itself, as an interleaving step relation over
      the dispatcher loop, the lookup goroutines, the semaphore channel
      [concurrencies], the [sync.WaitGroup] and the [Result] channel.

    Go strings are byte sequences, modelled by [string]; Go maps by
    [gmap]; a runtime panic (index out of range, nil dereference) by
    [None]. *)

From Stdlib Require Import ZArith Ascii String Permutation.
From stdpp Require Import gmap strings list relations.

Local Open Scope Z_scope.
Local Open Scope nat_scope.

(* stdpp blocks the unfolding of string concatenation; literals are
   concatenated throughout this file. *)
#[local] Arguments String.append !_ _ / : simpl nomatch.

(* ================================================================== *)
(** * Part I: definitions                                              *)
(* ================================================================== *)

(** ** Library functions used by the program *)

(** [strings.Split(s, sep)] for a one-byte separator: the substrings of
    [s] between the occurrences of [sep].  The result is never empty;
    splitting the empty string gives the one-element slice holding the
    empty string. *)
Fixpoint Split (s : string) (sep : ascii) : list string :=
  match s with
  | EmptyString => [EmptyString]
  | String c s' =>
      if Ascii.eqb c sep then EmptyString :: Split s' sep
      else match Split s' sep with
           | [] => [String c EmptyString]
           | seg :: segs => String c seg :: segs
           end
  end.

(** [strings.IndexByte(s, c) >= 0]. *)
Fixpoint ContainsByte (s : string) (c : ascii) : bool :=
  match s with
  | EmptyString => false
  | String c' s' => Ascii.eqb c' c || ContainsByte s' c
  end.

(** [strings.Join(elems, sep)]. *)
Fixpoint Join (elems : list string) (sep : string) : string :=
  match elems with
  | [] => EmptyString
  | [e] => e
  | e :: (_ :: _) as rest => e +:+ sep +:+ Join rest sep
  end.

(** [fmt.Sprintf] for formats whose only verb is [%s] and whose operands
    are strings, as in [rdapLookupURL]: [%s] copies the next operand
    byte for byte and the other bytes of the format are copied as they
    are.  A [%s] without operand prints Go's [%!s(MISSING)], a [%] at
    the end [%!(NOVERB)]; other verbs are not modelled. *)
Fixpoint Sprintf (format : string) (args : list string) : string :=
  match format with
  | EmptyString => EmptyString
  | String c rest =>
      if Ascii.eqb c "%" then
        match rest with
        | String v rest' =>
            if Ascii.eqb v "s" then
              match args with
              | a :: args' => a +:+ Sprintf rest' args'
              | [] => "%!s(MISSING)" +:+ Sprintf rest' []
              end
            else String c (Sprintf rest args)
        | EmptyString => "%!(NOVERB)"
        end
      else String c (Sprintf rest args)
  end.

(** [%+v] of a [[]string] and of a [[][]string]: elements separated by
    one space, inside square brackets. *)
Definition fmt_strings (l : list string) : string :=
  "[" +:+ Join l " " +:+ "]".

Definition fmt_service (service : list (list string)) : string :=
  "[" +:+ Join (fmt_strings <$> service) " " +:+ "]".

(** Go's [a[i]]: out of range is a runtime panic. *)
Definition index {A} (a : list A) (i : Z) : option A :=
  if (i <? 0)%Z then None else a !! Z.to_nat i.

(** ** The bootstrap document and the registry directory *)

Definition RdapDNSservice := list (list string).

Record RdapDNS := {
  Description : string;
  Publication : string;
  Services : list RdapDNSservice
}.

(** The loop of [LookupMap] (lines 82-89) over the services still to
    visit, [m] being the map filled so far. *)
Fixpoint LookupMap_services (services : list RdapDNSservice)
    (m : gmap string (list string))
    : option (gmap string (list string)) * option string :=
  match services with
  | [] => (Some m, None)
  | service :: rest =>
      match service with
      | [labels; urls] =>
          LookupMap_services rest
            (foldl (fun m topdomain => <[topdomain := urls]> m) m labels)
      | _ =>
          (None, Some ("service is not a tuple. service " +:+ fmt_service service))
      end
  end.

(** The method [LookupMap] of [RdapDNS]: the pair [(m, err)] it returns.
    The receiver may be nil. *)
Definition LookupMap (dns : option RdapDNS)
    : option (gmap string (list string)) * option string :=
  match dns with
  | None => (None, Some "rdap services is empty")
  | Some d =>
      if Nat.eqb (length (Services d)) 0
      then (None, Some "rdap services is empty")
      else LookupMap_services (Services d) ∅
  end.

(** What the specification says the directory holds for a label: the
    endpoint list of the last service tuple, in document order, whose
    label list contains it. *)
Fixpoint last_endpoints (label : string) (services : list RdapDNSservice)
    : option (list string) :=
  match services with
  | [] => None
  | service :: rest =>
      match last_endpoints label rest with
      | Some urls => Some urls
      | None =>
          match service with
          | [labels; urls] => if bool_decide (label ∈ labels) then Some urls else None
          | _ => None
          end
      end
  end.

(** ** The lookup worker *)

Record RdapLookupResult := {}.

Record DomainLookupResult := {
  Domain : string;
  Message : string;
  Result : option RdapLookupResult
}.

(** The fields of [LookupWorker] that [Start] only reads.
    [concurrencyLimit] is the capacity of the channel [concurrencies]
    ([make(chan struct{}, fConcurrency)] in [main]). *)
Record LookupWorker := {
  rdapLookupMap : gmap string (list string);
  concurrencyLimit : nat
}.

Definition topdomain (domain : string) : option string :=
  if String.eqb domain EmptyString then Some EmptyString
  else
    let arr := Split domain "." in
    index arr (Z.of_nat (length arr) - 1).

Definition rdapLookupURL (rdap domain : string) : string :=
  Sprintf "%s/domain/%s" [rdap; domain].

(** ** The network *)

Record Response := { StatusCode : Z }.

(** What one [http.Get] followed by [io.ReadAll] of the body can do:
    [http.Get] fails (a response may come with the error), or it
    returns a response whose body is then read, with or without error. *)
Inductive HttpResult :=
  | GetFailed (resp : option Response) (err : string)
  | GotResponse (resp : Response) (readErr : option string).

(** The pair [(resp, err)] returned by [queryRdap] (lines 149-155). *)
Definition queryRdap_return (h : HttpResult) : option Response * option string :=
  match h with
  | GetFailed resp err => (resp, Some err)
  | GotResponse resp readErr => (Some resp, readErr)
  end.

Definition queryRdap (get : string -> HttpResult) (rdap domain : string)
    : option Response * option string :=
  queryRdap_return (get (rdapLookupURL rdap domain)).

(** ** One lookup goroutine (lines 171-204) *)

(** The [switch] of lines 191-200. *)
Definition status_message (statusCode : Z) : string :=
  if ((200 <=? statusCode) && (statusCode <? 300))%Z then "Registered"
  else if (statusCode =? 404)%Z then "Unregistered"
  else if (500 <=? statusCode)%Z then "RDAP server error"
  else "Unknown error".

(** What the goroutine does first: it sends an outcome at once, or it
    queries an endpoint. *)
Inductive TaskStep :=
  | Emit (r : DomainLookupResult)
  | Query (rdap : string).

(** Lines 171-180, up to the call of [queryRdap]. *)
Definition task_begin (worker : LookupWorker) (domain : string) : option TaskStep :=
  match topdomain domain with
  | None => None
  | Some label =>
      match rdapLookupMap worker !! label with
      | None =>
          Some (Emit {| Domain := domain; Message := "No RDAP server found"; Result := None |})
      | Some apis =>
          if Nat.eqb (length apis) 0 then
            Some (Emit {| Domain := domain; Message := "No RDAP server found"; Result := None |})
          else
            match index apis 0 with
            | None => None
            | Some rdap => Some (Query rdap)
            end
      end
  end.

(** Lines 181-204, from the return of [queryRdap]. *)
Definition task_resume (domain : string) (ret : option Response * option string)
    : option DomainLookupResult :=
  match ret with
  | (_, Some err) => Some {| Domain := domain; Message := err; Result := None |}
  | (Some resp, None) =>
      Some {| Domain := domain; Message := status_message (StatusCode resp); Result := None |}
  | (None, None) => None
  end.

(** The whole goroutine body run in isolation against a network [get]:
    the outcome it sends on [Result] and the URLs it requested. *)
Definition lookup (worker : LookupWorker) (get : string -> HttpResult) (domain : string)
    : option (DomainLookupResult * list string) :=
  match task_begin worker domain with
  | None => None
  | Some (Emit r) => Some (r, [])
  | Some (Query rdap) =>
      match task_resume domain (queryRdap get rdap domain) with
      | None => None
      | Some r => Some (r, [rdapLookupURL rdap domain])
      end
  end.

(** ** [Start]: the dispatcher, the goroutines and the channels *)

(** Where the goroutine running [Start] stands (lines 161-209). *)
Inductive Dispatcher :=
  | AtRange                      (* line 161: receive from [unchecked] *)
  | AtAdd (domain : string)      (* line 162: [wg.Add(1)] *)
  | AtAcquire (domain : string)  (* line 163: send on [concurrencies] *)
  | AtGo (domain : string)       (* line 165: the [go] statement *)
  | AtWait                       (* line 208: [wg.Wait()] *)
  | AtClose                      (* line 209: [close(worker.Result)] *)
  | Returned.

(** Where one lookup goroutine stands (lines 166-205). *)
Inductive Task :=
  | TLookup (domain : string)           (* line 171 *)
  | TQuery (domain rdap : string)       (* line 180: request under way *)
  | TSend (r : DomainLookupResult)      (* lines 173, 182, 201: send on [Result] *)
  | TRelease                            (* line 167: receive from [concurrencies] *)
  | TDone.                              (* line 168: [wg.Done()] *)

(** The shared state.  [unchecked] holds the domains the producer has
    still to hand over before it closes the channel; [concurrencies] is
    the number of tokens buffered in the semaphore channel; [results] is
    what has been received from [Result] so far, in order, by a consumer
    that is always ready to receive (the [range] loop of [main]);
    [requests] records the URLs passed to [http.Get]. *)
Record State := {
  unchecked : list string;
  dispatcher : Dispatcher;
  tasks : list Task;
  concurrencies : nat;
  wg : nat;
  results : list DomainLookupResult;
  closed : bool;
  requests : list string
}.

Definition init (domains : list string) : State :=
  {| unchecked := domains; dispatcher := AtRange; tasks := [];
     concurrencies := 0; wg := 0; results := []; closed := false;
     requests := [] |}.

(** One atomic step of one goroutine.  A send on the buffered channel
    [concurrencies] needs room, a receive needs a token; with capacity 0
    the channel is unbuffered and a send pairs with a receive
    ([step_handoff]).  [wg.Wait()] returns when the counter is 0.  A
    goroutine whose next operation would panic has no step. *)
Inductive step (worker : LookupWorker) : State -> State -> Prop :=
  | step_receive d q ts c w rs cl rq :
      step worker
        {| unchecked := d :: q; dispatcher := AtRange; tasks := ts;
           concurrencies := c; wg := w; results := rs; closed := cl; requests := rq |}
        {| unchecked := q; dispatcher := AtAdd d; tasks := ts;
           concurrencies := c; wg := w; results := rs; closed := cl; requests := rq |}
  | step_range_end ts c w rs cl rq :
      step worker
        {| unchecked := []; dispatcher := AtRange; tasks := ts;
           concurrencies := c; wg := w; results := rs; closed := cl; requests := rq |}
        {| unchecked := []; dispatcher := AtWait; tasks := ts;
           concurrencies := c; wg := w; results := rs; closed := cl; requests := rq |}
  | step_add d q ts c w rs cl rq :
      step worker
        {| unchecked := q; dispatcher := AtAdd d; tasks := ts;
           concurrencies := c; wg := w; results := rs; closed := cl; requests := rq |}
        {| unchecked := q; dispatcher := AtAcquire d; tasks := ts;
           concurrencies := c; wg := S w; results := rs; closed := cl; requests := rq |}
  | step_acquire d q ts c w rs cl rq :
      c < concurrencyLimit worker ->
      step worker
        {| unchecked := q; dispatcher := AtAcquire d; tasks := ts;
           concurrencies := c; wg := w; results := rs; closed := cl; requests := rq |}
        {| unchecked := q; dispatcher := AtGo d; tasks := ts;
           concurrencies := S c; wg := w; results := rs; closed := cl; requests := rq |}
  | step_handoff d q ts1 ts2 c w rs cl rq :
      concurrencyLimit worker = 0 ->
      step worker
        {| unchecked := q; dispatcher := AtAcquire d; tasks := ts1 ++ TRelease :: ts2;
           concurrencies := c; wg := w; results := rs; closed := cl; requests := rq |}
        {| unchecked := q; dispatcher := AtGo d; tasks := ts1 ++ TDone :: ts2;
           concurrencies := c; wg := w; results := rs; closed := cl; requests := rq |}
  | step_go d q ts c w rs cl rq :
      step worker
        {| unchecked := q; dispatcher := AtGo d; tasks := ts;
           concurrencies := c; wg := w; results := rs; closed := cl; requests := rq |}
        {| unchecked := q; dispatcher := AtRange; tasks := ts ++ [TLookup d];
           concurrencies := c; wg := w; results := rs; closed := cl; requests := rq |}
  | step_wait q ts c rs cl rq :
      step worker
        {| unchecked := q; dispatcher := AtWait; tasks := ts;
           concurrencies := c; wg := 0; results := rs; closed := cl; requests := rq |}
        {| unchecked := q; dispatcher := AtClose; tasks := ts;
           concurrencies := c; wg := 0; results := rs; closed := cl; requests := rq |}
  | step_close q ts c w rs rq :
      step worker
        {| unchecked := q; dispatcher := AtClose; tasks := ts;
           concurrencies := c; wg := w; results := rs; closed := false; requests := rq |}
        {| unchecked := q; dispatcher := Returned; tasks := ts;
           concurrencies := c; wg := w; results := rs; closed := true; requests := rq |}
  | step_lookup_emit domain r q dp ts1 ts2 c w rs cl rq :
      task_begin worker domain = Some (Emit r) ->
      step worker
        {| unchecked := q; dispatcher := dp; tasks := ts1 ++ TLookup domain :: ts2;
           concurrencies := c; wg := w; results := rs; closed := cl; requests := rq |}
        {| unchecked := q; dispatcher := dp; tasks := ts1 ++ TSend r :: ts2;
           concurrencies := c; wg := w; results := rs; closed := cl; requests := rq |}
  | step_lookup_query domain rdap q dp ts1 ts2 c w rs cl rq :
      task_begin worker domain = Some (Query rdap) ->
      step worker
        {| unchecked := q; dispatcher := dp; tasks := ts1 ++ TLookup domain :: ts2;
           concurrencies := c; wg := w; results := rs; closed := cl; requests := rq |}
        {| unchecked := q; dispatcher := dp; tasks := ts1 ++ TQuery domain rdap :: ts2;
           concurrencies := c; wg := w; results := rs; closed := cl;
           requests := rq ++ [rdapLookupURL rdap domain] |}
  | step_response domain rdap h r q dp ts1 ts2 c w rs cl rq :
      task_resume domain (queryRdap_return h) = Some r ->
      step worker
        {| unchecked := q; dispatcher := dp; tasks := ts1 ++ TQuery domain rdap :: ts2;
           concurrencies := c; wg := w; results := rs; closed := cl; requests := rq |}
        {| unchecked := q; dispatcher := dp; tasks := ts1 ++ TSend r :: ts2;
           concurrencies := c; wg := w; results := rs; closed := cl; requests := rq |}
  | step_send r q dp ts1 ts2 c w rs rq :
      step worker
        {| unchecked := q; dispatcher := dp; tasks := ts1 ++ TSend r :: ts2;
           concurrencies := c; wg := w; results := rs; closed := false; requests := rq |}
        {| unchecked := q; dispatcher := dp; tasks := ts1 ++ TRelease :: ts2;
           concurrencies := c; wg := w; results := rs ++ [r]; closed := false; requests := rq |}
  | step_release q dp ts1 ts2 c w rs cl rq :
      step worker
        {| unchecked := q; dispatcher := dp; tasks := ts1 ++ TRelease :: ts2;
           concurrencies := S c; wg := w; results := rs; closed := cl; requests := rq |}
        {| unchecked := q; dispatcher := dp; tasks := ts1 ++ TDone :: ts2;
           concurrencies := c; wg := w; results := rs; closed := cl; requests := rq |}
  | step_done q dp ts1 ts2 c w rs cl rq :
      step worker
        {| unchecked := q; dispatcher := dp; tasks := ts1 ++ TDone :: ts2;
           concurrencies := c; wg := S w; results := rs; closed := cl; requests := rq |}
        {| unchecked := q; dispatcher := dp; tasks := ts1 ++ ts2;
           concurrencies := c; wg := w; results := rs; closed := cl; requests := rq |}.

(** The states [Start] can be in when it is given [domains]. *)
Definition reachable (worker : LookupWorker) (domains : list string) (s : State) : Prop :=
  rtc (step worker) (init domains) s.

(** ** An executable scheduler *)

(** Which goroutine moves next: the dispatcher, the [i]-th live lookup
    goroutine ([h] is what the network answers if that goroutine is
    waiting for its request), or the dispatcher and the [i]-th goroutine
    together over an unbuffered [concurrencies]. *)
Inductive Choice :=
  | RunDispatcher
  | RunTask (i : nat) (h : HttpResult)
  | Handoff (i : nat).

Definition set_task (i : nat) (t : Task) (ts : list Task) : list Task :=
  take i ts ++ t :: drop (S i) ts.

Definition drop_task (i : nat) (ts : list Task) : list Task :=
  take i ts ++ drop (S i) ts.

Definition run_dispatcher (worker : LookupWorker) (s : State) : option State :=
  match dispatcher s with
  | AtRange =>
      match unchecked s with
      | d :: q =>
          Some {| unchecked := q; dispatcher := AtAdd d; tasks := tasks s;
                  concurrencies := concurrencies s; wg := wg s; results := results s;
                  closed := closed s; requests := requests s |}
      | [] =>
          Some {| unchecked := []; dispatcher := AtWait; tasks := tasks s;
                  concurrencies := concurrencies s; wg := wg s; results := results s;
                  closed := closed s; requests := requests s |}
      end
  | AtAdd d =>
      Some {| unchecked := unchecked s; dispatcher := AtAcquire d; tasks := tasks s;
              concurrencies := concurrencies s; wg := S (wg s); results := results s;
              closed := closed s; requests := requests s |}
  | AtAcquire d =>
      if Nat.ltb (concurrencies s) (concurrencyLimit worker) then
        Some {| unchecked := unchecked s; dispatcher := AtGo d; tasks := tasks s;
                concurrencies := S (concurrencies s); wg := wg s; results := results s;
                closed := closed s; requests := requests s |}
      else None
  | AtGo d =>
      Some {| unchecked := unchecked s; dispatcher := AtRange;
              tasks := tasks s ++ [TLookup d];
              concurrencies := concurrencies s; wg := wg s; results := results s;
              closed := closed s; requests := requests s |}
  | AtWait =>
      match wg s with
      | 0 =>
          Some {| unchecked := unchecked s; dispatcher := AtClose; tasks := tasks s;
                  concurrencies := concurrencies s; wg := 0; results := results s;
                  closed := closed s; requests := requests s |}
      | S _ => None
      end
  | AtClose =>
      if closed s then None
      else
        Some {| unchecked := unchecked s; dispatcher := Returned; tasks := tasks s;
                concurrencies := concurrencies s; wg := wg s; results := results s;
                closed := true; requests := requests s |}
  | Returned => None
  end.

Definition run_task (worker : LookupWorker) (i : nat) (h : HttpResult) (s : State)
    : option State :=
  match tasks s !! i with
  | None => None
  | Some (TLookup domain) =>
      match task_begin worker domain with
      | None => None
      | Some (Emit r) =>
          Some {| unchecked := unchecked s; dispatcher := dispatcher s;
                  tasks := set_task i (TSend r) (tasks s);
                  concurrencies := concurrencies s; wg := wg s; results := results s;
                  closed := closed s; requests := requests s |}
      | Some (Query rdap) =>
          Some {| unchecked := unchecked s; dispatcher := dispatcher s;
                  tasks := set_task i (TQuery domain rdap) (tasks s);
                  concurrencies := concurrencies s; wg := wg s; results := results s;
                  closed := closed s;
                  requests := requests s ++ [rdapLookupURL rdap domain] |}
      end
  | Some (TQuery domain rdap) =>
      match task_resume domain (queryRdap_return h) with
      | None => None
      | Some r =>
          Some {| unchecked := unchecked s; dispatcher := dispatcher s;
                  tasks := set_task i (TSend r) (tasks s);
                  concurrencies := concurrencies s; wg := wg s; results := results s;
                  closed := closed s; requests := requests s |}
      end
  | Some (TSend r) =>
      if closed s then None
      else
        Some {| unchecked := unchecked s; dispatcher := dispatcher s;
                tasks := set_task i TRelease (tasks s);
                concurrencies := concurrencies s; wg := wg s;
                results := results s ++ [r];
                closed := false; requests := requests s |}
  | Some TRelease =>
      match concurrencies s with
      | 0 => None
      | S c =>
          Some {| unchecked := unchecked s; dispatcher := dispatcher s;
                  tasks := set_task i TDone (tasks s);
                  concurrencies := c; wg := wg s; results := results s;
                  closed := closed s; requests := requests s |}
      end
  | Some TDone =>
      match wg s with
      | 0 => None
      | S w =>
          Some {| unchecked := unchecked s; dispatcher := dispatcher s;
                  tasks := drop_task i (tasks s);
                  concurrencies := concurrencies s; wg := w; results := results s;
                  closed := closed s; requests := requests s |}
      end
  end.

Definition run_handoff (worker : LookupWorker) (i : nat) (s : State) : option State :=
  match dispatcher s, tasks s !! i, concurrencyLimit worker with
  | AtAcquire d, Some TRelease, 0 =>
      Some {| unchecked := unchecked s; dispatcher := AtGo d;
              tasks := set_task i TDone (tasks s);
              concurrencies := concurrencies s; wg := wg s; results := results s;
              closed := closed s; requests := requests s |}
  | _, _, _ => None
  end.

Definition run1 (worker : LookupWorker) (c : Choice) (s : State) : option State :=
  match c with
  | RunDispatcher => run_dispatcher worker s
  | RunTask i h => run_task worker i h s
  | Handoff i => run_handoff worker i s
  end.

(** Runs a schedule; [None] when a chosen goroutine cannot move. *)
Fixpoint run (worker : LookupWorker) (schedule : list Choice) (s : State) : option State :=
  match schedule with
  | [] => Some s
  | c :: rest =>
      match run1 worker c s with
      | None => None
      | Some s' => run worker rest s'
      end
  end.

(** ** Accounting *)

(** A lookup goroutine is in flight from its start until it has given
    its token back to [concurrencies]. *)
Definition task_in_flight (t : Task) : nat :=
  match t with
  | TLookup _ | TQuery _ _ | TSend _ | TRelease => 1
  | TDone => 0
  end.

Definition in_flight (s : State) : nat := sum_list_with task_in_flight (tasks s).

(** A goroutine that has sent its outcome. *)
Definition task_finished (t : Task) : nat :=
  match t with
  | TRelease | TDone => 1
  | TLookup _ | TQuery _ _ | TSend _ => 0
  end.

(** A token the dispatcher has put into [concurrencies] for a goroutine
    it has not started yet. *)
Definition reserved (d : Dispatcher) : nat :=
  match d with AtGo _ => 1 | _ => 0 end.

(** A goroutine counted by [wg.Add(1)] and not started yet. *)
Definition announced (d : Dispatcher) : nat :=
  match d with AtAcquire _ | AtGo _ => 1 | _ => 0 end.

(** The dispatcher has left the [range] loop: it has received every
    domain and seen [unchecked] closed. *)
Definition drained (d : Dispatcher) : bool :=
  match d with AtWait | AtClose | Returned => true | _ => false end.

Definition joined (d : Dispatcher) : bool :=
  match d with AtClose | Returned => true | _ => false end.

Definition returned (d : Dispatcher) : bool :=
  match d with Returned => true | _ => false end.

(** The domains received or to be received whose outcome has not been
    sent yet. *)
Definition task_pending (t : Task) : list string :=
  match t with
  | TLookup d | TQuery d _ => [d]
  | TSend r => [Domain r]
  | TRelease | TDone => []
  end.

Definition dispatcher_pending (d : Dispatcher) : list string :=
  match d with
  | AtAdd d | AtAcquire d | AtGo d => [d]
  | _ => []
  end.

Definition pending (s : State) : list string :=
  unchecked s ++ dispatcher_pending (dispatcher s) ++ (tasks s ≫= task_pending).

(** An upper bound on the number of steps still to come. *)
Definition task_fuel (t : Task) : nat :=
  match t with
  | TLookup _ => 5 | TQuery _ _ => 4 | TSend _ => 3 | TRelease => 2 | TDone => 1
  end.

Definition dispatcher_fuel (d : Dispatcher) : nat :=
  match d with
  | AtRange => 3 | AtAdd _ => 11 | AtAcquire _ => 10 | AtGo _ => 9
  | AtWait => 2 | AtClose => 1 | Returned => 0
  end.

Definition fuel (s : State) : nat :=
  9 * length (unchecked s) + dispatcher_fuel (dispatcher s)
  + sum_list_with task_fuel (tasks s).

(** A URL that [Start] may request: the first endpoint registered for
    the top-level label of one of the input domains. *)
Definition lookup_url (worker : LookupWorker) (domains : list string) (url : string) : Prop :=
  exists domain label rdap rest,
    domain ∈ domains /\ topdomain domain = Some label /\
    rdapLookupMap worker !! label = Some (rdap :: rest) /\
    url = rdapLookupURL rdap domain.

(** The invariant of [Start]. *)
Record Inv (worker : LookupWorker) (domains : list string) (s : State) : Prop := {
  inv_perm : Permutation domains ((Domain <$> results s) ++ pending s);
  inv_sem : concurrencies s = in_flight s + reserved (dispatcher s);
  inv_cap : concurrencies s <= concurrencyLimit worker;
  inv_wg : wg s = length (tasks s) + announced (dispatcher s);
  inv_closed : closed s = returned (dispatcher s);
  inv_drained : drained (dispatcher s) = true -> unchecked s = [];
  inv_joined : joined (dispatcher s) = true -> tasks s = [];
  inv_finished : sum_list_with task_finished (tasks s) <= length (results s);
  inv_requests : Forall (lookup_url worker domains) (requests s)
}.

(** ** Concrete inputs *)

(** The document of the comment above [rdapDNSURL], one with two
    services naming the same label, one with a service of three lists,
    and one without services. *)
Definition doc_uz : RdapDNS :=
  {| Description := "RDAP bootstrap file for Domain Name System registrations";
     Publication := "2022-12-08T18:00:02Z";
     Services := [ [ ["uz"]; ["http://cctld.uz:9000/"] ] ] |}.

Definition doc_twice : RdapDNS :=
  {| Description := "d"; Publication := "p";
     Services := [ [ ["com"; "net"]; ["http://r1"] ];
                   [ ["org"]; [] ];
                   [ ["com"]; ["http://r2"; "http://r3"] ] ] |}.

Definition doc_triple : RdapDNS :=
  {| Description := "d"; Publication := "p";
     Services := [ [ ["com"]; ["http://r1"] ];
                   [ ["net"]; ["http://r2"]; ["extra"] ] ] |}.

Definition doc_empty : RdapDNS :=
  {| Description := "d"; Publication := "p"; Services := [] |}.

(** The worker of the scenario: directory [com -> http://r1] and an
    empty endpoint list for [org]; at most one lookup at a time. *)
Definition worker1 : LookupWorker :=
  {| rdapLookupMap := <["org" := []]> {["com" := ["http://r1"]]};
     concurrencyLimit := 1 |}.

Definition worker0 : LookupWorker :=
  {| rdapLookupMap := {["com" := ["http://r1"]]}; concurrencyLimit := 0 |}.

(** A network where every request is answered with status 404. *)
Definition get404 (url : string) : HttpResult :=
  GotResponse {| StatusCode := 404 |} None.

Definition get_refused (url : string) : HttpResult :=
  GetFailed None "dial tcp: connection refused".

(** A complete run of [Start] on [a.com] and [b.xx] with one slot. *)
Definition schedule_ab : list Choice :=
  [ RunDispatcher; RunDispatcher; RunDispatcher; RunDispatcher;
    RunTask 0 (get404 EmptyString); RunDispatcher; RunDispatcher;
    RunTask 0 (get404 EmptyString); RunTask 0 (get404 EmptyString);
    RunTask 0 (get404 EmptyString); RunDispatcher; RunDispatcher;
    RunTask 1 (get404 EmptyString); RunDispatcher;
    RunTask 0 (get404 EmptyString); RunTask 0 (get404 EmptyString);
    RunTask 0 (get404 EmptyString); RunTask 0 (get404 EmptyString);
    RunDispatcher; RunDispatcher ].

Definition final_ab : State :=
  {| unchecked := []; dispatcher := Returned; tasks := [];
     concurrencies := 0; wg := 0;
     results := [ {| Domain := "a.com"; Message := "Unregistered"; Result := None |};
                  {| Domain := "b.xx"; Message := "No RDAP server found"; Result := None |} ];
     closed := true;
     requests := ["http://r1/domain/a.com"] |}.

(** ** The rest of [Start]'s bookkeeping *)

(** The URLs [lookup] requests for a domain: one when the directory has
    a first endpoint for its label, none otherwise. *)
Definition lookup_requests (worker : LookupWorker) (domain : string) : list string :=
  match task_begin worker domain with
  | Some (Query rdap) => [rdapLookupURL rdap domain]
  | _ => []
  end.

(** The domains whose goroutine has not looked the directory up yet. *)
Definition task_unstarted (t : Task) : list string :=
  match t with
  | TLookup d => [d]
  | _ => []
  end.

Definition not_started (s : State) : list string :=
  unchecked s ++ dispatcher_pending (dispatcher s) ++ (tasks s ≫= task_unstarted).

(** An outcome the goroutine of [domain] can send. *)
Definition outcome_of (worker : LookupWorker) (domain : string) (r : DomainLookupResult)
    : Prop :=
  task_begin worker domain = Some (Emit r) \/
  exists rdap h,
    task_begin worker domain = Some (Query rdap) /\
    task_resume domain (queryRdap_return h) = Some r.

(** What is known of a goroutine that has gone past the directory
    lookup: the endpoint it queries is the one the directory gave, the
    outcome it is about to send is one its domain can get. *)
Definition task_sound (worker : LookupWorker) (t : Task) : Prop :=
  match t with
  | TQuery d rdap => task_begin worker d = Some (Query rdap)
  | TSend r => outcome_of worker (Domain r) r
  | _ => True
  end.

(** The states in which the next operation of some goroutine is a
    runtime panic: a send on the closed [Result], [wg.Done()] on a zero
    counter, a second [close], an index out of range in the goroutine's
    directory lookup, a nil response dereferenced at line 189. *)
Definition panics (worker : LookupWorker) (s : State) : Prop :=
  (closed s = true /\ exists r, TSend r ∈ tasks s) \/
  (wg s = 0 /\ TDone ∈ tasks s) \/
  (closed s = true /\ dispatcher s = AtClose) \/
  (exists d, TLookup d ∈ tasks s /\ task_begin worker d = None) \/
  (exists d rdap h,
     TQuery d rdap ∈ tasks s /\ task_resume d (queryRdap_return h) = None).

(** The scheduler against a network that answers by URL: the answer a
    waiting goroutine gets is the one [get] gives for its URL. *)
Definition answer (get : string -> HttpResult) (s : State) (i : nat) : HttpResult :=
  match tasks s !! i with
  | Some (TQuery domain rdap) => get (rdapLookupURL rdap domain)
  | _ => GetFailed None EmptyString
  end.

Definition run_net1 (worker : LookupWorker) (get : string -> HttpResult)
    (c : Choice) (s : State) : option State :=
  match c with
  | RunTask i _ => run1 worker (RunTask i (answer get s i)) s
  | _ => run1 worker c s
  end.

Fixpoint run_net (worker : LookupWorker) (get : string -> HttpResult)
    (schedule : list Choice) (s : State) : option State :=
  match schedule with
  | [] => Some s
  | c :: rest =>
      match run_net1 worker get c s with
      | None => None
      | Some s' => run_net worker get rest s'
      end
  end.

(** The outcome [lookup] gives for a domain, as a list. *)
Definition lookup_outcome (worker : LookupWorker) (get : string -> HttpResult)
    (domain : string) : list DomainLookupResult :=
  match lookup worker get domain with
  | Some (r, _) => [r]
  | None => []
  end.

(** A goroutine in step with [lookup] against the network [get]. *)
Definition task_agrees (worker : LookupWorker) (get : string -> HttpResult) (t : Task)
    : Prop :=
  match t with
  | TQuery d rdap => task_begin worker d = Some (Query rdap)
  | TSend r => lookup_outcome worker get (Domain r) = [r]
  | _ => True
  end.

(** The state [Start] is in on the input [a.com] once the dispatcher
    stands at the send of line 163, whatever the capacity. *)
Definition stuck_a : State :=
  {| unchecked := []; dispatcher := AtAcquire "a.com"; tasks := [];
     concurrencies := 0; wg := 1; results := []; closed := false;
     requests := [] |}.

(** ** [main]: the flags and the output *)




Definition newline : ascii := "010".

(** One iteration of the loop of lines 261-263:
    [fmt.Printf("%s,%s\n", result.Domain, result.Message)]. *)
Definition print_result (result : DomainLookupResult) : string :=
  Sprintf ("%s,%s" +:+ String newline EmptyString) [Domain result; Message result].

(** What [main] writes to standard output for the outcomes it receives. *)
Fixpoint print_results (rs : list DomainLookupResult) : string :=
  match rs with
  | [] => EmptyString
  | r :: rest => print_result r +:+ print_results rest
  end.

Fixpoint all_bytes (f : ascii -> bool) (s : string) : bool :=
  match s with
  | EmptyString => true
  | String c s' => f c && all_bytes f s'
  end.

(** ** The extraction tool: [regexDomain] and [find] *)

(** Regular expressions as the package [regexp] parses them.  A
    character class is a list of byte ranges. *)
Inductive Regexp :=
  | NoMatch
  | EmptyMatch
  | CharClass (ranges : list (ascii * ascii))
  | Concat (r1 r2 : Regexp)
  | Alternate (r1 r2 : Regexp)
  | Star (r : Regexp).

Definition Literal (c : ascii) : Regexp := CharClass [(c, c)].

(** [x+] is [xx*] and [x{2,}] is [xx+]. *)
Definition Plus (r : Regexp) : Regexp := Concat r (Star r).
Definition Repeat2 (r : Regexp) : Regexp := Concat r (Plus r).

Definition in_class (ranges : list (ascii * ascii)) (c : ascii) : bool :=
  existsb (fun range => (N_of_ascii (fst range) <=? N_of_ascii c)%N &&
                        (N_of_ascii c <=? N_of_ascii (snd range))%N) ranges.

(** The strings a regular expression denotes. *)
Inductive Matches : Regexp -> string -> Prop :=
  | MEmpty : Matches EmptyMatch EmptyString
  | MClass ranges c :
      in_class ranges c = true -> Matches (CharClass ranges) (String c EmptyString)
  | MConcat r1 r2 s1 s2 :
      Matches r1 s1 -> Matches r2 s2 -> Matches (Concat r1 r2) (s1 +:+ s2)
  | MAltL r1 r2 s : Matches r1 s -> Matches (Alternate r1 r2) s
  | MAltR r1 r2 s : Matches r2 s -> Matches (Alternate r1 r2) s
  | MStar0 r : Matches (Star r) EmptyString
  | MStarApp r s1 s2 :
      Matches r s1 -> Matches (Star r) s2 -> Matches (Star r) (s1 +:+ s2).

(** Matching by derivatives. *)
Fixpoint nullable (r : Regexp) : bool :=
  match r with
  | NoMatch => false
  | EmptyMatch => true
  | CharClass _ => false
  | Concat r1 r2 => nullable r1 && nullable r2
  | Alternate r1 r2 => nullable r1 || nullable r2
  | Star _ => true
  end.

Fixpoint derive (c : ascii) (r : Regexp) : Regexp :=
  match r with
  | NoMatch => NoMatch
  | EmptyMatch => NoMatch
  | CharClass ranges => if in_class ranges c then EmptyMatch else NoMatch
  | Concat r1 r2 =>
      if nullable r1
      then Alternate (Concat (derive c r1) r2) (derive c r2)
      else Concat (derive c r1) r2
  | Alternate r1 r2 => Alternate (derive c r1) (derive c r2)
  | Star r1 => Concat (derive c r1) (Star r1)
  end.

(** The method [MatchString] of a [Regexp], for a pattern anchored at both ends by [^]
    and [$]: the whole string is in the language of [re]. *)
Fixpoint MatchString (re : Regexp) (s : string) : bool :=
  match s with
  | EmptyString => nullable re
  | String c s' => MatchString (derive c re) s'
  end.

Definition alnum : list (ascii * ascii) := [("a", "z"); ("0", "9")]%char.
Definition lower : list (ascii * ascii) := [("a", "z")]%char.

(** The pattern of [regexDomain] between its anchors: one or more
    groups, each made of letters and digits [a-z0-9]+ followed by any
    number of a hyphen and [a-z0-9]+; then an escaped dot; then
    [a-z]{2,}. *)
Definition regexDomain : Regexp :=
  Concat
    (Plus (Concat (Plus (CharClass alnum))
                  (Star (Concat (Literal "-") (Plus (CharClass alnum))))))
    (Concat (Literal ".") (Repeat2 (CharClass lower))).

(** [find]: the first of the comma-separated words of the line that
    [regexDomain] matches, the empty string when there is none. *)
Fixpoint find_word (words : list string) : string :=
  match words with
  | [] => EmptyString
  | word :: rest =>
      if MatchString regexDomain word then word else find_word rest
  end.

Definition find (line : string) : string := find_word (Split line ",").

(** A host label as [regexDomain] wants it, read from the left:
    [after_alnum] tells whether the byte before was a letter or a digit.
    Hyphens stand between letters or digits only. *)
Fixpoint host_label (after_alnum : bool) (s : string) : bool :=
  match s with
  | EmptyString => after_alnum
  | String c s' =>
      if in_class alnum c then host_label true s'
      else if Ascii.eqb c "-" then after_alnum && host_label false s'
      else false
  end.

(* ================================================================== *)
(** * Part II: theorems                                                *)
(* ================================================================== *)

(** ** Strings *)

Lemma append_empty_r (s : string) : s +:+ EmptyString = s.
Proof. induction s as [|c s IH]; simpl; [reflexivity | by f_equal]. Qed.

Lemma append_assoc' (a b c : string) : (a +:+ b) +:+ c = a +:+ b +:+ c.
Proof. induction a as [|x a IH]; simpl; [reflexivity | by f_equal]. Qed.

Lemma length_append (a b : string) :
  String.length (a +:+ b) = String.length a + String.length b.
Proof. induction a as [|x a IH]; simpl; [reflexivity | by f_equal]. Qed.

Lemma Split_nonempty s sep : Split s sep <> [].
Proof.
  destruct s as [|c s]; simpl; [discriminate |].
  destruct (Ascii.eqb c sep); [discriminate |].
  destruct (Split s sep); discriminate.
Qed.

(** Joining the segments with the separator gives the string back. *)
Lemma Join_Split s sep : Join (Split s sep) (String sep EmptyString) = s.
Proof.
  induction s as [|c s IH]; simpl; [reflexivity |].
  destruct (Ascii.eqb_spec c sep) as [->|Hne].
  - pose proof (Split_nonempty s sep) as Hn.
    destruct (Split s sep) as [|seg segs]; [done |].
    simpl in *. by rewrite IH.
  - destruct (Split s sep) as [|seg segs] eqn:E.
    + by destruct (Split_nonempty s sep).
    + destruct segs as [|seg' segs]; simpl in *; by rewrite <- IH.
Qed.

(** No segment holds the separator. *)
Lemma Split_no_sep s sep : Forall (fun seg => ContainsByte seg sep = false) (Split s sep).
Proof.
  induction s as [|c s IH]; simpl.
  - by constructor.
  - destruct (Ascii.eqb_spec c sep) as [->|Hne].
    + by constructor.
    + destruct (Split s sep) as [|seg segs]; simpl.
      * constructor; [|done]. simpl.
        destruct (Ascii.eqb_spec c sep); [done | reflexivity].
      * inversion IH as [|? ? Hseg Hsegs]; subst.
        constructor; [|done]. simpl.
        destruct (Ascii.eqb_spec c sep); [done | exact Hseg].
Qed.

Lemma Join_snoc segs seg sep :
  Join (segs ++ [seg]) sep =
  match segs with [] => seg | _ => Join segs sep +:+ sep +:+ seg end.
Proof.
  induction segs as [|a segs IH]; [reflexivity |].
  destruct segs as [|b segs]; [reflexivity |].
  change (Join ((a :: b :: segs) ++ [seg]) sep)
    with (a +:+ sep +:+ Join ((b :: segs) ++ [seg]) sep).
  rewrite IH.
  change (Join (a :: b :: segs) sep) with (a +:+ sep +:+ Join (b :: segs) sep).
  by rewrite !append_assoc'.
Qed.

Lemma index_last {A} (a : list A) :
  a <> [] -> index a (Z.of_nat (length a) - 1) = last a.
Proof.
  intros Hne. unfold index. rewrite last_lookup.
  destruct a as [|x a]; [done |].
  replace (Z.of_nat (length (x :: a)) - 1)%Z with (Z.of_nat (length a))
    by (simpl length; lia).
  destruct (Z.ltb_spec (Z.of_nat (length a)) 0); [lia |].
  by rewrite Nat2Z.id.
Qed.

Lemma topdomain_last domain : topdomain domain = last (Split domain ".").
Proof.
  unfold topdomain. destruct (String.eqb_spec domain EmptyString) as [->|Hne].
  - reflexivity.
  - apply index_last, Split_nonempty.
Qed.

Lemma topdomain_total domain : exists label, topdomain domain = Some label.
Proof.
  rewrite topdomain_last.
  pose proof (Split_nonempty domain ".") as Hne.
  destruct (Split domain ".") as [|seg segs] using rev_ind; [done |].
  rewrite last_snoc. eauto.
Qed.

Lemma topdomain_suffix domain label :
  topdomain domain = Some label ->
  ContainsByte label "." = false /\
  (domain = label \/ exists front, domain = front +:+ "." +:+ label).
Proof.
  rewrite topdomain_last. intros Hlast.
  pose proof (Join_Split domain ".") as HJ.
  pose proof (Split_no_sep domain ".") as HF.
  destruct (Split domain ".") as [|seg segs _] using rev_ind; [done |].
  rewrite last_snoc in Hlast. injection Hlast as ->.
  split.
  - apply Forall_app in HF as [_ HF]. by inversion HF.
  - rewrite Join_snoc in HJ. destruct segs as [|a segs]; [by left |].
    right. eexists. symmetry. exact HJ.
Qed.

(** ** The registry directory *)

Lemma foldl_insert_lookup (labels urls : list string)
    (m : gmap string (list string)) (label : string) :
  foldl (fun m topdomain => <[topdomain := urls]> m) m labels !! label =
  if bool_decide (label ∈ labels) then Some urls else m !! label.
Proof.
  revert m. induction labels as [|a labels IH]; intros m; simpl.
  - done.
  - rewrite IH. destruct (bool_decide_reflect (label ∈ labels)) as [Hin|Hnin].
    + rewrite bool_decide_eq_true_2; [done | by right].
    + destruct (decide (label = a)) as [->|Hne].
      * rewrite lookup_insert_eq. rewrite bool_decide_eq_true_2; [done | by left].
      * rewrite lookup_insert_ne by done.
        rewrite bool_decide_eq_false_2; [done |].
        intros Hc. apply elem_of_cons in Hc as [?|?]; done.
Qed.

Lemma LookupMap_services_lookup services (m m' : gmap string (list string)) :
  LookupMap_services services m = (Some m', None) ->
  forall label,
    m' !! label =
    match last_endpoints label services with
    | Some urls => Some urls
    | None => m !! label
    end.
Proof.
  revert m. induction services as [|service rest IH]; intros m Hrun label.
  - simpl in *. by injection Hrun as <-.
  - simpl in Hrun.
    destruct service as [|labels [|urls [|extra more]]]; try discriminate.
    rewrite (IH _ Hrun label). simpl.
    destruct (last_endpoints label rest); [done |].
    rewrite foldl_insert_lookup. by destruct (bool_decide (label ∈ labels)).
Qed.

Lemma last_endpoints_None label services :
  last_endpoints label services = None <->
  forall labels urls, [labels; urls] ∈ services -> label ∉ labels.
Proof.
  induction services as [|service rest IH]; simpl.
  - split; [| done]. intros _ labels urls Hin. by apply elem_of_nil in Hin.
  - destruct (last_endpoints label rest) as [found|] eqn:E.
    + split; [done |]. intros Hall.
      assert (Some found = None) as Hc; [| done].
      apply IH. intros labels urls Hin. apply (Hall labels urls). by right.
    + destruct IH as [IH _]. specialize (IH eq_refl).
      split.
      * intros Hhead labels urls Hin.
        apply elem_of_cons in Hin as [<-|Hin]; [| by eapply IH].
        destruct (bool_decide_reflect (label ∈ labels)); done.
      * intros Hall.
        destruct service as [|labels [|urls [|extra more]]]; try done.
        rewrite bool_decide_eq_false_2; [done |].
        apply (Hall labels urls). by left.
Qed.

Lemma last_endpoints_Some label services urls :
  last_endpoints label services = Some urls <->
  exists front labels back,
    services = front ++ [labels; urls] :: back /\ label ∈ labels /\
    forall labels' urls', [labels'; urls'] ∈ back -> label ∉ labels'.
Proof.
  split.
  - induction services as [|service rest IH]; simpl; [done |].
    destruct (last_endpoints label rest) as [found|] eqn:E.
    + intros [= ->]. destruct (IH eq_refl) as (front & labels & back & -> & Hin & Hback).
      by exists (service :: front), labels, back.
    + intros Hhead.
      destruct service as [|labels [|urls' [|extra more]]]; try done.
      destruct (bool_decide_reflect (label ∈ labels)) as [Hin|]; [| done].
      injection Hhead as ->.
      exists [], labels, rest. split_and!; [done | done |].
      by apply last_endpoints_None.
  - intros (front & labels & back & -> & Hin & Hback).
    induction front as [|a front IH]; simpl.
    + apply last_endpoints_None in Hback. rewrite Hback.
      by rewrite bool_decide_eq_true_2.
    + by rewrite IH.
Qed.

Lemma LookupMap_services_bad services (m : gmap string (list string)) :
  Exists (fun service => length service <> 2) services ->
  exists service,
    service ∈ services /\ length service <> 2 /\
    LookupMap_services services m =
      (None, Some ("service is not a tuple. service " +:+ fmt_service service)).
Proof.
  revert m. induction services as [|service rest IH]; intros m Hbad.
  - by apply Exists_nil in Hbad.
  - destruct (decide (length service = 2)) as [Hlen|Hlen].
    + apply Exists_cons in Hbad as [Hbad|Hbad]; [done |].
      destruct service as [|labels [|urls [|extra more]]]; try done.
      destruct (IH (foldl (fun m topdomain => <[topdomain := urls]> m) m labels) Hbad)
        as (bad & Hin & Hl & Hrun).
      exists bad. split_and!; [by right | done | exact Hrun].
    + exists service. split_and!; [by left | done |].
      destruct service as [|labels [|urls [|extra more]]]; done.
Qed.

(** ** The lookup goroutine *)

Lemma rdapLookupURL_concat rdap domain :
  rdapLookupURL rdap domain = rdap +:+ "/domain/" +:+ domain.
Proof. unfold rdapLookupURL. simpl. by rewrite append_empty_r. Qed.

Lemma status_message_cases statusCode :
  ((200 <= statusCode < 300)%Z -> status_message statusCode = "Registered") /\
  (statusCode = 404%Z -> status_message statusCode = "Unregistered") /\
  ((500 <= statusCode)%Z -> status_message statusCode = "RDAP server error") /\
  (~ (200 <= statusCode < 300)%Z -> statusCode <> 404%Z -> (statusCode < 500)%Z ->
   status_message statusCode = "Unknown error").
Proof.
  unfold status_message.
  destruct (Z.leb_spec 200 statusCode), (Z.ltb_spec statusCode 300),
    (Z.eqb_spec statusCode 404), (Z.leb_spec 500 statusCode);
    simpl; split_and!; intros; try reflexivity; lia.
Qed.

Lemma index_0 {A} (a : list A) x rest : a = x :: rest -> index a 0 = Some x.
Proof. by intros ->. Qed.

Lemma task_begin_miss worker domain label :
  topdomain domain = Some label ->
  rdapLookupMap worker !! label = None ->
  task_begin worker domain =
    Some (Emit {| Domain := domain; Message := "No RDAP server found"; Result := None |}).
Proof. intros Ht Hm. unfold task_begin. by rewrite Ht, Hm. Qed.

Lemma task_begin_no_endpoint worker domain label :
  topdomain domain = Some label ->
  rdapLookupMap worker !! label = Some [] ->
  task_begin worker domain =
    Some (Emit {| Domain := domain; Message := "No RDAP server found"; Result := None |}).
Proof. intros Ht Hm. unfold task_begin. by rewrite Ht, Hm. Qed.

Lemma task_begin_hit worker domain label rdap rest :
  topdomain domain = Some label ->
  rdapLookupMap worker !! label = Some (rdap :: rest) ->
  task_begin worker domain = Some (Query rdap).
Proof. intros Ht Hm. unfold task_begin. by rewrite Ht, Hm. Qed.

Lemma task_begin_total worker domain : exists a, task_begin worker domain = Some a.
Proof.
  destruct (topdomain_total domain) as [label Ht].
  destruct (rdapLookupMap worker !! label) as [[|rdap rest]|] eqn:Hm.
  - erewrite task_begin_no_endpoint; eauto.
  - erewrite task_begin_hit; eauto.
  - erewrite task_begin_miss; eauto.
Qed.

Lemma task_begin_Emit worker domain r :
  task_begin worker domain = Some (Emit r) ->
  r = {| Domain := domain; Message := "No RDAP server found"; Result := None |}.
Proof.
  destruct (topdomain_total domain) as [label Ht].
  destruct (rdapLookupMap worker !! label) as [[|rdap rest]|] eqn:Hm.
  - erewrite task_begin_no_endpoint; eauto. congruence.
  - erewrite task_begin_hit; eauto. discriminate.
  - erewrite task_begin_miss; eauto. congruence.
Qed.

Lemma task_begin_Query worker domain rdap :
  task_begin worker domain = Some (Query rdap) ->
  exists label rest,
    topdomain domain = Some label /\ rdapLookupMap worker !! label = Some (rdap :: rest).
Proof.
  destruct (topdomain_total domain) as [label Ht].
  destruct (rdapLookupMap worker !! label) as [[|rdap' rest]|] eqn:Hm.
  - erewrite task_begin_no_endpoint; eauto. discriminate.
  - erewrite task_begin_hit; eauto. intros [= <-]. eauto.
  - erewrite task_begin_miss; eauto. discriminate.
Qed.

Lemma task_resume_total domain h :
  exists r, task_resume domain (queryRdap_return h) = Some r /\ Domain r = domain.
Proof.
  destruct h as [[resp|] err|resp [err|]]; simpl; eauto.
Qed.

Lemma task_resume_domain domain ret r :
  task_resume domain ret = Some r -> Domain r = domain.
Proof.
  destruct ret as [[resp|] [err|]]; simpl; intros [= <-]; reflexivity.
Qed.

(** ** [Start]: the invariant *)

Create Rewrite HintDb start.
#[local] Hint Rewrite @sum_list_with_app @length_app @bind_app @bind_cons
  @fmap_app @app_nil_r : start.

Ltac start_simpl :=
  unfold in_flight, pending, fuel in *; simpl in *;
  autorewrite with start in *; simpl in *.

Lemma init_inv worker domains : Inv worker domains (init domains).
Proof.
  constructor; simpl; try done.
  - unfold pending. simpl. by rewrite app_nil_r.
  - lia.
Qed.

Lemma middle_not_nil {A} (l1 l2 : list A) x : l1 ++ x :: l2 <> [].
Proof. by destruct l1. Qed.

Lemma step_inv worker domains s s' :
  Inv worker domains s -> step worker s s' -> Inv worker domains s'.
Proof.
  intros Hinv Hstep.
  destruct Hstep; destruct Hinv as [Hperm Hsem Hcap Hwg Hcl Hdr Hj Hfin Hrq];
    try match goal with
    | H : task_begin _ _ = Some (Emit _) |- _ => apply task_begin_Emit in H as ->
    | H : task_resume _ _ = Some _ |- _ => apply task_resume_domain in H as <-
    end;
    start_simpl.
  all: constructor; start_simpl; try done; try lia.
  all: try (intros _; by apply Hdr).
  all: try (intros Hc; specialize (Hj Hc); by apply middle_not_nil in Hj).
  all: try (etrans; [exact Hperm |]; solve_Permutation).
  - intros _. destruct ts; [done | simpl in Hwg; lia].
  - apply Forall_app. split; [done |]. apply Forall_singleton.
    match goal with H : task_begin _ _ = _ |- _ =>
      apply task_begin_Query in H as (label & rest & Htop & Hmap) end.
    exists domain, label, rdap, rest. split_and!; try done.
    rewrite Hperm. set_solver.
Qed.

Lemma reachable_inv worker domains s :
  reachable worker domains s -> Inv worker domains s.
Proof.
  unfold reachable. intros Hreach.
  eapply (rtc_ind_r (Inv worker domains) (init domains));
    [apply init_inv | | exact Hreach].
  intros y z _ Hstep Hy. by eapply step_inv.
Qed.

(** The scheduler only takes steps of [Start]. *)
Lemma run1_sound worker choice s s' :
  run1 worker choice s = Some s' -> step worker s s'.
Proof.
  destruct s as [q dp ts c w rs cl rq], choice as [|i h|i]; simpl.
  - unfold run_dispatcher; simpl. destruct dp; try done.
    + destruct q; intros [= <-]; constructor.
    + intros [= <-]; constructor.
    + destruct (Nat.ltb_spec c (concurrencyLimit worker)); [| done].
      intros [= <-]. by constructor.
    + intros [= <-]; constructor.
    + destruct w; [| done]. intros [= <-]; constructor.
    + destruct cl; [done |]. intros [= <-]; constructor.
  - unfold run_task, set_task, drop_task; simpl.
    destruct (ts !! i) as [t|] eqn:E; [| done].
    apply take_drop_middle in E.
    set (ts1 := take i ts) in *. set (ts2 := drop (S i) ts) in *.
    clearbody ts1 ts2. subst ts. destruct t.
    + destruct (task_begin worker domain) as [[r|rdap]|] eqn:Hb; [| | done];
        intros [= <-]; by constructor.
    + destruct (task_resume domain (queryRdap_return h)) as [r|] eqn:Hr; [| done].
      intros [= <-]. by econstructor.
    + destruct cl; [done |]. intros [= <-]; constructor.
    + destruct c; [done |]. intros [= <-]; constructor.
    + destruct w; [done |]. intros [= <-]; constructor.
  - unfold run_handoff, set_task; simpl.
    destruct dp; try done.
    destruct (ts !! i) as [[| | | |]|] eqn:E; try done.
    destruct (concurrencyLimit worker) eqn:Hcap; [| done].
    apply take_drop_middle in E.
    set (ts1 := take i ts) in *. set (ts2 := drop (S i) ts) in *.
    clearbody ts1 ts2. subst ts. intros [= <-]. by constructor.
Qed.

Lemma run_sound worker schedule s s' :
  run worker schedule s = Some s' -> rtc (step worker) s s'.
Proof.
  revert s. induction schedule as [|choice rest IH]; intros s; simpl.
  - intros [= <-]. apply rtc_refl.
  - destruct (run1 worker choice s) as [s1|] eqn:E; [| done].
    intros Hrest. eapply rtc_l; [by eapply run1_sound | by apply IH].
Qed.

(** ** [Start]: every run ends *)

Lemma step_fuel worker s s' : step worker s s' -> fuel s' < fuel s.
Proof. destruct 1; start_simpl; lia. Qed.

Lemma step_drained worker s s' :
  step worker s s' -> drained (dispatcher s) = true -> drained (dispatcher s') = true.
Proof. destruct 1; simpl; done. Qed.

(** A live lookup goroutine never blocks. *)
Lemma task_enabled worker domains s t :
  Inv worker domains s -> t ∈ tasks s -> exists s', step worker s s'.
Proof.
  intros [Hperm Hsem Hcap Hwg Hcl Hdr Hj Hfin Hrq] Hin.
  apply list_elem_of_split in Hin as (ts1 & ts2 & Hts).
  destruct s as [q dp ts c w rs cl rq]; simpl in *; subst ts.
  assert (cl = false) as ->.
  { destruct dp; simpl in *; try done. by destruct (middle_not_nil ts1 ts2 t); apply Hj. }
  start_simpl.
  destruct t as [domain|domain rdap|r| |].
  - destruct (task_begin_total worker domain) as [[r|rdap] Hb];
      eexists; [by eapply step_lookup_emit | by eapply step_lookup_query].
  - destruct (task_resume_total domain (GetFailed None EmptyString)) as (r & Hr & _).
    eexists. by eapply step_response.
  - eexists. apply step_send.
  - simpl in Hsem. destruct c; [lia |]. eexists. apply step_release.
  - destruct w; [lia |]. eexists. apply step_done.
Qed.

(** [Start] cannot be stuck before it returns, as long as the semaphore
    has room for one token or the loop is already over. *)
Lemma progress worker domains s :
  Inv worker domains s ->
  1 <= concurrencyLimit worker \/ drained (dispatcher s) = true ->
  dispatcher s <> Returned ->
  exists s', step worker s s'.
Proof.
  intros Hinv Hcfg Hrun.
  pose proof Hinv as [Hperm Hsem Hcap Hwg Hcl Hdr Hj Hfin Hrq].
  destruct s as [q dp ts c w rs cl rq]; simpl in *.
  destruct dp; simpl in *.
  - destruct q; eexists; constructor.
  - eexists; constructor.
  - destruct Hcfg as [Hcfg|]; [| done].
    destruct (decide (c < concurrencyLimit worker)) as [Hlt|Hge].
    + eexists. by apply step_acquire.
    + destruct ts as [|t ts].
      * unfold in_flight in Hsem; simpl in Hsem. lia.
      * eapply (task_enabled _ _ _ t Hinv). simpl. by left.
  - eexists; constructor.
  - destruct w.
    + eexists; constructor.
    + destruct ts as [|t ts]; [simpl in Hwg; lia |].
      eapply (task_enabled _ _ _ t Hinv). simpl. by left.
  - subst cl. eexists; constructor.
  - done.
Qed.

Lemma terminates worker domains n s :
  fuel s < n ->
  Inv worker domains s ->
  1 <= concurrencyLimit worker \/ drained (dispatcher s) = true ->
  exists s', rtc (step worker) s s' /\ dispatcher s' = Returned.
Proof.
  revert s. induction n as [|n IH]; intros s Hfuel Hinv Hcfg; [lia |].
  assert (dispatcher s = Returned \/ dispatcher s <> Returned) as [Hret|Hrun]
    by (destruct (dispatcher s); (by left) || (by right)).
  - exists s. split; [apply rtc_refl | done].
  - destruct (progress _ _ _ Hinv Hcfg Hrun) as [s1 Hstep].
    destruct (IH s1) as (s' & Hsteps & Hret).
    + apply step_fuel in Hstep. lia.
    + by eapply step_inv.
    + destruct Hcfg as [?|Hd]; [by left | right; by eapply step_drained].
    + exists s'. split; [by eapply rtc_l | done].
Qed.

(** ** [Start]: what holds once [Result] is closed *)

Lemma closed_returned worker domains s :
  Inv worker domains s -> closed s = true -> dispatcher s = Returned.
Proof.
  intros Hinv Hcl. rewrite (inv_closed _ _ _ Hinv) in Hcl.
  by destruct (dispatcher s).
Qed.

Lemma returned_complete worker domains s :
  Inv worker domains s -> dispatcher s = Returned ->
  closed s = true /\ unchecked s = [] /\ tasks s = [] /\
  concurrencies s = 0 /\ wg s = 0 /\
  Permutation domains (Domain <$> results s).
Proof.
  intros [Hperm Hsem Hcap Hwg Hcl Hdr Hj Hfin Hrq] Hret.
  destruct s as [q dp ts c w rs cl rq]; simpl in *; subst dp; simpl in *.
  rewrite (Hdr eq_refl), (Hj eq_refl) in *. start_simpl.
  by split_and!.
Qed.

Lemma returned_final worker domains s s' :
  Inv worker domains s -> dispatcher s = Returned -> ~ step worker s s'.
Proof.
  intros Hinv Hret Hstep.
  destruct (returned_complete _ _ _ Hinv Hret) as (_ & _ & Hts & _).
  destruct Hstep; simpl in *; try done; by apply middle_not_nil in Hts.
Qed.

Lemma emitted_submseteq worker domains s :
  Inv worker domains s -> (Domain <$> results s) ⊆+ domains.
Proof.
  intros Hinv. rewrite (inv_perm _ _ _ Hinv). by apply submseteq_inserts_r.
Qed.

Lemma step_results_prefix worker s s' :
  step worker s s' -> results s `prefix_of` results s'.
Proof. destruct 1; simpl; try reflexivity. by eexists. Qed.

(** With an unbuffered [concurrencies] (capacity 0) the first send of
    line 163 finds no receiver: no goroutine is ever started, nothing is
    sent on [Result], and [Result] is closed only if there was no domain. *)
Lemma unbuffered_blocks worker domains s :
  concurrencyLimit worker = 0 ->
  reachable worker domains s ->
  tasks s = [] /\ results s = [] /\ (domains <> [] -> closed s = false).
Proof.
  intros Hcap Hreach.
  assert (tasks s = [] /\ results s = []) as [Hts Hrs].
  { eapply (rtc_ind_r (fun s => reachable worker domains s -> tasks s = [] /\ results s = [])
              (init domains)); [done | | exact Hreach | exact Hreach].
    intros y z Hy Hstep IH _. destruct (IH Hy) as [Hts Hrs].
    pose proof (reachable_inv _ _ _ Hy) as [_ Hsem Hc _ _ _ _ _ _].
    rewrite Hcap in Hc.
    destruct Hstep; simpl in *; try done;
      try (by apply middle_not_nil in Hts); lia. }
  split_and!; try done.
  intros Hne. destruct (closed s) eqn:Hcl; [| done].
  pose proof (reachable_inv _ _ _ Hreach) as Hinv.
  apply (closed_returned _ _ _ Hinv) in Hcl.
  destruct (returned_complete _ _ _ Hinv Hcl) as (_ & _ & _ & _ & _ & Hperm).
  rewrite Hrs in Hperm. by apply Permutation_nil_r in Hperm.
Qed.

(** Without input nothing is sent and no goroutine exists. *)
Lemma empty_input_idle worker s :
  Inv worker [] s -> results s = [] /\ tasks s = [].
Proof.
  intros Hinv. pose proof (inv_perm _ _ _ Hinv) as Hperm.
  pose proof (inv_finished _ _ _ Hinv) as Hfin.
  apply Permutation_nil_l in Hperm. symmetry in Hperm.
  apply app_eq_nil in Hperm as [Hrs Hpend].
  apply fmap_nil_inv in Hrs. split; [done |].
  unfold pending in Hpend.
  apply app_eq_nil in Hpend as [_ Hpend]. apply app_eq_nil in Hpend as [_ Hpend].
  rewrite Hrs in Hfin. destruct (tasks s) as [|[] ts]; simpl in *; try done; lia.
Qed.

(** A run of [Start] on [n] domains has at most [9 * n + 3] steps. *)
Lemma nsteps_fuel worker n s s' :
  nsteps (step worker) n s s' -> fuel s' + n <= fuel s.
Proof.
  induction 1 as [|n x y z Hstep _ IH]; [lia |].
  apply step_fuel in Hstep. lia.
Qed.

Lemma run_length worker domains n s :
  nsteps (step worker) n (init domains) s -> n <= 9 * length domains + 3.
Proof.
  intros Hrun. apply nsteps_fuel in Hrun. unfold fuel in Hrun. simpl in Hrun. lia.
Qed.

(** The goroutines alive can outnumber the capacity: one that has given
    its token back and has only [wg.Done()] left runs beside the next
    one.  Here the capacity is 1, two goroutines are alive and one of
    them is in flight. *)
Lemma live_goroutines_example :
  exists s,
    reachable worker1 ["a.com"; "b.xx"] s /\
    tasks s = [TDone; TLookup "b.xx"] /\ in_flight s = 1.
Proof.
  eexists. split.
  - apply (run_sound worker1 (take 12 schedule_ab)). vm_compute. reflexivity.
  - by vm_compute.
Qed.

(** [Start] requests only URLs built from the first endpoint registered
    for the top-level label of an input domain. *)
Lemma Start_requests worker domains s :
  reachable worker domains s -> Forall (lookup_url worker domains) (requests s).
Proof. intros Hreach. apply (inv_requests _ _ _ (reachable_inv _ _ _ Hreach)). Qed.

(* ================================================================== *)
(** * The claims                                                       *)
(* ================================================================== *)

(** C1. [Start] sends exactly one outcome on [Result] per input domain.
    In every state of every run, whatever the lookups answer, the input
    domains are those whose outcome has been sent, each once, together
    with those still pending; once [Result] is closed nothing is pending,
    there are as many outcomes as domains, and nothing moves any more;
    every step uses up fuel and only appends to what was sent; as long
    as [concurrencies] has room for a token, or once the dispatcher has
    drained its input, the run goes on to the close.  On an empty input
    nothing is sent, no goroutine is started and three steps of the
    dispatcher close [Result]. *)
Theorem Start_one_outcome_per_domain worker domains s :
  reachable worker domains s ->
  Permutation domains ((Domain <$> results s) ++ pending s) /\
  (closed s = true ->
     pending s = [] /\ tasks s = [] /\
     Permutation domains (Domain <$> results s) /\
     length (results s) = length domains /\
     forall s', ~ step worker s s') /\
  (forall s', step worker s s' ->
     fuel s' < fuel s /\ results s `prefix_of` results s') /\
  (1 <= concurrencyLimit worker \/ drained (dispatcher s) = true ->
     exists s', rtc (step worker) s s' /\ closed s' = true /\
       Permutation domains (Domain <$> results s') /\
       length (results s') = length domains) /\
  (domains = [] ->
     results s = [] /\ tasks s = [] /\
     run worker [RunDispatcher; RunDispatcher; RunDispatcher] (init domains) =
       Some {| unchecked := []; dispatcher := Returned; tasks := [];
               concurrencies := 0; wg := 0; results := []; closed := true;
               requests := [] |}).
Proof.
  intros Hreach. pose proof (reachable_inv _ _ _ Hreach) as Hinv.
  split_and!.
  - apply (inv_perm _ _ _ Hinv).
  - intros Hcl. apply (closed_returned _ _ _ Hinv) in Hcl.
    destruct (returned_complete _ _ _ Hinv Hcl) as (_ & Hq & Hts & _ & _ & Hperm).
    split_and!; try done.
    + unfold pending. rewrite Hq, Hts, Hcl. done.
    + apply Permutation_length in Hperm. by rewrite length_fmap in Hperm.
    + intros s'. by eapply returned_final.
  - intros s' Hstep. split; [by eapply step_fuel | by eapply step_results_prefix].
  - intros Hcfg.
    destruct (terminates worker domains (S (fuel s)) s) as (s' & Hsteps & Hret);
      [lia | done | done |].
    assert (Inv worker domains s') as Hinv'.
    { apply reachable_inv. unfold reachable. by etrans. }
    destruct (returned_complete _ _ _ Hinv' Hret) as (Hcl & _ & _ & _ & _ & Hperm).
    exists s'. split_and!; try done.
    apply Permutation_length in Hperm. by rewrite length_fmap in Hperm.
  - intros ->. destruct (empty_input_idle _ _ Hinv) as [Hrs Hts].
    by split_and!.
Qed.

Lemma Start_one_outcome_per_domain_witness :
  reachable worker1 ["a.com"; "b.xx"] final_ab /\
  Permutation ["a.com"; "b.xx"] (Domain <$> results final_ab) /\
  length (results final_ab) = 2.
Proof.
  assert (reachable worker1 ["a.com"; "b.xx"] final_ab) as Hreach.
  { apply (run_sound worker1 schedule_ab). vm_compute. reflexivity. }
  split; [exact Hreach |].
  destruct (Start_one_outcome_per_domain worker1 ["a.com"; "b.xx"] final_ab Hreach)
    as (_ & Hclosed & _).
  destruct (Hclosed eq_refl) as (_ & _ & Hperm & Hlen & _).
  split; [exact Hperm | exact Hlen].
Defined.

(** C2. A lookup that reaches the network step, i.e. whose top-level
    label has a first endpoint [rdap], requests the URL built from
    [rdap] and the domain and sends an outcome carrying the domain.  Its
    message is the error text when [http.Get] or the reading of the body
    fails; otherwise it follows the status: Registered for 200..299,
    Unregistered for 404, RDAP server error from 500 on, Unknown error
    for every other status. *)
Theorem lookup_network_outcome worker get domain label rdap rest :
  topdomain domain = Some label ->
  rdapLookupMap worker !! label = Some (rdap :: rest) ->
  exists message,
    lookup worker get domain =
      Some ({| Domain := domain; Message := message; Result := None |},
            [rdapLookupURL rdap domain]) /\
    match get (rdapLookupURL rdap domain) with
    | GetFailed _ err => message = err
    | GotResponse _ (Some err) => message = err
    | GotResponse resp None =>
        ((200 <= StatusCode resp < 300)%Z -> message = "Registered") /\
        (StatusCode resp = 404%Z -> message = "Unregistered") /\
        ((500 <= StatusCode resp)%Z -> message = "RDAP server error") /\
        (~ (200 <= StatusCode resp < 300)%Z -> StatusCode resp <> 404%Z ->
         (StatusCode resp < 500)%Z -> message = "Unknown error")
    end.
Proof.
  intros Htop Hmap. unfold lookup, queryRdap.
  rewrite (task_begin_hit _ _ _ _ _ Htop Hmap).
  destruct (get (rdapLookupURL rdap domain)) as [[resp|] err|resp [err|]]; simpl;
    eexists; (split; [reflexivity |]); try reflexivity.
  apply status_message_cases.
Qed.

Lemma lookup_network_outcome_witness :
  topdomain "a.com" = Some "com" /\
  rdapLookupMap worker1 !! "com" = Some ["http://r1"] /\
  lookup worker1 get404 "a.com" =
    Some ({| Domain := "a.com"; Message := "Unregistered"; Result := None |},
          ["http://r1/domain/a.com"]).
Proof.
  assert (topdomain "a.com" = Some "com") as Htop by reflexivity.
  assert (rdapLookupMap worker1 !! "com" = Some ["http://r1"]) as Hmap
    by (vm_compute; reflexivity).
  split; [exact Htop |]. split; [exact Hmap |].
  destruct (lookup_network_outcome worker1 get404 "a.com" "com" "http://r1" [] Htop Hmap)
    as (message & Hlookup & Hmsg).
  simpl in Hmsg. destruct Hmsg as (_ & H404 & _).
  rewrite (H404 eq_refl) in Hlookup. exact Hlookup.
Defined.

(** C3. At any moment of any run of [Start], for every capacity of
    [concurrencies] (in particular every limit of at least 1), the
    lookup goroutines in flight, i.e. started and not yet past the
    receive of line 167, are at most as many as the capacity.  The tokens
    in [concurrencies] are those of the goroutines in flight plus the one
    the dispatcher has sent for the goroutine it is about to start: the
    number in flight grows only by using up that token, a goroutine that
    ends has given its token back whatever its outcome, and when [Start]
    returns no token is left. *)
Theorem Start_bounded_in_flight worker domains s :
  reachable worker domains s ->
  in_flight s <= concurrencyLimit worker /\
  concurrencies s = in_flight s + reserved (dispatcher s) /\
  (forall s', step worker s s' ->
     in_flight s' <= in_flight s + reserved (dispatcher s) /\
     (in_flight s < in_flight s' ->
        reserved (dispatcher s) = 1 /\ reserved (dispatcher s') = 0) /\
     (length (tasks s') < length (tasks s) -> in_flight s' = in_flight s)) /\
  (dispatcher s = Returned -> concurrencies s = 0 /\ in_flight s = 0).
Proof.
  intros Hreach. pose proof (reachable_inv _ _ _ Hreach) as Hinv.
  pose proof (inv_sem _ _ _ Hinv) as Hsem.
  pose proof (inv_cap _ _ _ Hinv) as Hcap.
  split_and!; [lia | done | |].
  - intros s' Hstep. clear Hreach Hinv Hsem Hcap.
    destruct Hstep; start_simpl; split_and!; intros; try done; lia.
  - intros Hret.
    destruct (returned_complete _ _ _ Hinv Hret) as (_ & _ & _ & Hc & _). lia.
Qed.

Lemma Start_bounded_in_flight_witness :
  reachable worker1 ["a.com"; "b.xx"] final_ab /\
  in_flight final_ab <= 1 /\ concurrencies final_ab = 0.
Proof.
  assert (reachable worker1 ["a.com"; "b.xx"] final_ab) as Hreach.
  { apply (run_sound worker1 schedule_ab). vm_compute. reflexivity. }
  split; [exact Hreach |].
  destruct (Start_bounded_in_flight worker1 ["a.com"; "b.xx"] final_ab Hreach)
    as (Hle & _ & _ & Hret).
  split; [exact Hle |]. exact (proj1 (Hret eq_refl)).
Defined.

(** C4. A domain whose top-level label is not a key of the directory
    gets the outcome No RDAP server found with the domain as given; the
    goroutine goes from the directory lookup to the send without
    calling [queryRdap], so no URL is requested. *)
Theorem lookup_no_provider worker get domain label :
  topdomain domain = Some label ->
  rdapLookupMap worker !! label = None ->
  task_begin worker domain =
    Some (Emit {| Domain := domain; Message := "No RDAP server found"; Result := None |}) /\
  lookup worker get domain =
    Some ({| Domain := domain; Message := "No RDAP server found"; Result := None |}, []).
Proof.
  intros Htop Hmap. unfold lookup.
  by rewrite (task_begin_miss _ _ _ Htop Hmap).
Qed.

Lemma lookup_no_provider_witness :
  topdomain "b.xx" = Some "xx" /\
  rdapLookupMap worker1 !! "xx" = None /\
  lookup worker1 get404 "b.xx" =
    Some ({| Domain := "b.xx"; Message := "No RDAP server found"; Result := None |}, []).
Proof.
  assert (topdomain "b.xx" = Some "xx") as Htop by reflexivity.
  assert (rdapLookupMap worker1 !! "xx" = None) as Hmap by (vm_compute; reflexivity).
  split; [exact Htop |]. split; [exact Hmap |].
  exact (proj2 (lookup_no_provider worker1 get404 "b.xx" "xx" Htop Hmap)).
Defined.

(** C5. A bootstrap document with a service that is not a list of
    exactly two lists makes [LookupMap] return a nil map and an error,
    the one naming a service of the wrong length: no part of the
    directory is returned. *)
Theorem LookupMap_not_a_tuple dns :
  Exists (fun service => length service <> 2) (Services dns) ->
  exists service,
    service ∈ Services dns /\ length service <> 2 /\
    LookupMap (Some dns) =
      (None, Some ("service is not a tuple. service " +:+ fmt_service service)).
Proof.
  intros Hbad. unfold LookupMap.
  destruct (Services dns) as [|service rest] eqn:E.
  - by apply Exists_nil in Hbad.
  - simpl Nat.eqb. cbv iota. by apply LookupMap_services_bad.
Qed.

Lemma LookupMap_not_a_tuple_witness :
  Exists (fun service => length service <> 2) (Services doc_triple) /\
  exists service,
    service ∈ Services doc_triple /\ length service <> 2 /\
    LookupMap (Some doc_triple) =
      (None, Some ("service is not a tuple. service " +:+ fmt_service service)).
Proof.
  assert (Exists (fun service : list (list string) => length service <> 2)
            (Services doc_triple)) as Hbad.
  { simpl. apply Exists_cons_tl, Exists_cons_hd. simpl. lia. }
  split; [exact Hbad | exact (LookupMap_not_a_tuple doc_triple Hbad)].
Defined.

(** C6, as the code has it. A bootstrap document without services makes
    [LookupMap] return a nil map and the error whose text is
    [rdap services is empty]. *)
Theorem LookupMap_empty_services dns :
  Services dns = [] ->
  LookupMap (Some dns) = (None, Some "rdap services is empty").
Proof. intros Hempty. unfold LookupMap. by rewrite Hempty. Qed.

Lemma LookupMap_empty_services_witness :
  Services doc_empty = [] /\
  LookupMap (Some doc_empty) = (None, Some "rdap services is empty").
Proof.
  split; [reflexivity |].
  apply (LookupMap_empty_services doc_empty). reflexivity.
Defined.

(** C6, as the specification words it, fails: the error text for a
    document without services is not [no routing information available]. *)
Lemma LookupMap_empty_services_message :
  Services doc_empty = [] /\
  LookupMap (Some doc_empty) <> (None, Some "no routing information available").
Proof. split; [reflexivity |]. vm_compute. discriminate. Qed.

(** C7. When [LookupMap] succeeds, the directory maps a label to the
    endpoint list of the last service, in document order, whose label
    list holds it, and has no entry for a label that no service lists. *)
Theorem LookupMap_last_write_wins dns m :
  LookupMap (Some dns) = (Some m, None) ->
  (forall label, m !! label = last_endpoints label (Services dns)) /\
  (forall label urls,
     m !! label = Some urls <->
     exists front labels back,
       Services dns = front ++ [labels; urls] :: back /\ label ∈ labels /\
       forall labels' urls', [labels'; urls'] ∈ back -> label ∉ labels') /\
  (forall label,
     m !! label = None <->
     forall labels urls, [labels; urls] ∈ Services dns -> label ∉ labels).
Proof.
  intros Hrun. unfold LookupMap in Hrun.
  destruct (Nat.eqb (length (Services dns)) 0); [done |].
  assert (forall label, m !! label = last_endpoints label (Services dns)) as Hlast.
  { intros label. rewrite (LookupMap_services_lookup _ _ _ Hrun label).
    rewrite lookup_empty. by destruct (last_endpoints label (Services dns)). }
  split_and!; [done | |].
  - intros label urls. rewrite Hlast. apply last_endpoints_Some.
  - intros label. rewrite Hlast. apply last_endpoints_None.
Qed.

Lemma LookupMap_last_write_wins_witness :
  exists m,
    LookupMap (Some doc_twice) = (Some m, None) /\
    m !! "com" = Some ["http://r2"; "http://r3"] /\
    m !! "net" = Some ["http://r1"] /\
    m !! "xx" = None.
Proof.
  destruct (LookupMap (Some doc_twice)) as [[m|] [err|]] eqn:Hrun;
    try (vm_compute in Hrun; discriminate).
  exists m. split; [reflexivity |].
  destruct (LookupMap_last_write_wins doc_twice m Hrun) as (Hlast & _ & _).
  rewrite !Hlast. vm_compute. done.
Defined.

(** C8. [topdomain] returns, without panic, the last of the segments
    that [strings.Split] cuts the domain into at the dots: a string
    without dot that is the whole domain or what follows its last dot.
    For the empty domain it is the empty string, which is then looked up
    in the directory like any other label: when the directory has no
    entry for it the outcome is No RDAP server found. *)
Theorem topdomain_final_segment domain :
  topdomain domain = last (Split domain ".") /\
  (exists label,
     topdomain domain = Some label /\ ContainsByte label "." = false /\
     (domain = label \/ exists front, domain = front +:+ "." +:+ label)) /\
  topdomain EmptyString = Some EmptyString /\
  (forall worker get,
     rdapLookupMap worker !! EmptyString = None ->
     lookup worker get EmptyString =
       Some ({| Domain := EmptyString; Message := "No RDAP server found";
                Result := None |}, [])).
Proof.
  split_and!.
  - apply topdomain_last.
  - destruct (topdomain_total domain) as [label Htop].
    exists label. split; [done |]. by apply topdomain_suffix.
  - reflexivity.
  - intros worker get Hmap. unfold lookup.
    by rewrite (task_begin_miss worker EmptyString EmptyString eq_refl Hmap).
Qed.

Lemma topdomain_final_segment_witness :
  topdomain "www.example.com" = Some "com" /\
  lookup worker1 get404 EmptyString =
    Some ({| Domain := EmptyString; Message := "No RDAP server found";
             Result := None |}, []).
Proof.
  destruct (topdomain_final_segment "www.example.com") as (Hlast & _ & _ & Hempty).
  split.
  - rewrite Hlast. reflexivity.
  - apply Hempty. vm_compute. reflexivity.
Defined.

(** C9. The URL queried is the endpoint, then [/domain/], then the
    domain, byte for byte: the domain is its suffix and nothing is
    escaped or dropped. *)
Theorem rdapLookupURL_verbatim rdap domain :
  rdapLookupURL rdap domain = rdap +:+ "/domain/" +:+ domain /\
  String.length (rdapLookupURL rdap domain) =
    String.length rdap + 8 + String.length domain.
Proof.
  rewrite rdapLookupURL_concat. split; [reflexivity |].
  rewrite !length_append. simpl. lia.
Qed.

(** C10. A domain whose top-level label is a key of the directory with
    an empty endpoint list is treated like a miss: the outcome is No
    RDAP server found and no URL is requested. *)
Theorem lookup_no_endpoint worker get domain label :
  topdomain domain = Some label ->
  rdapLookupMap worker !! label = Some [] ->
  task_begin worker domain =
    Some (Emit {| Domain := domain; Message := "No RDAP server found"; Result := None |}) /\
  lookup worker get domain =
    Some ({| Domain := domain; Message := "No RDAP server found"; Result := None |}, []).
Proof.
  intros Htop Hmap. unfold lookup.
  by rewrite (task_begin_no_endpoint _ _ _ Htop Hmap).
Qed.

Lemma lookup_no_endpoint_witness :
  topdomain "c.org" = Some "org" /\
  rdapLookupMap worker1 !! "org" = Some [] /\
  lookup worker1 get_refused "c.org" =
    Some ({| Domain := "c.org"; Message := "No RDAP server found"; Result := None |}, []).
Proof.
  assert (topdomain "c.org" = Some "org") as Htop by reflexivity.
  assert (rdapLookupMap worker1 !! "org" = Some []) as Hmap by (vm_compute; reflexivity).
  split; [exact Htop |]. split; [exact Hmap |].
  exact (proj2 (lookup_no_endpoint worker1 get_refused "c.org" "org" Htop Hmap)).
Defined.

(* ================================================================== *)
(** * Further properties                                               *)
(* ================================================================== *)

(** ** Splitting and joining *)

Lemma Split_app a b sep :
  Split (a +:+ String sep b) sep = Split a sep ++ Split b sep.
Proof.
  induction a as [|c a IH]; simpl.
  - by rewrite Ascii.eqb_refl.
  - destruct (Ascii.eqb c sep); rewrite IH; [done |].
    pose proof (Split_nonempty a sep) as Hne.
    by destruct (Split a sep).
Qed.

Lemma Split_sep_free a sep : ContainsByte a sep = false -> Split a sep = [a].
Proof.
  induction a as [|c a IH]; simpl; [done |].
  intros Hfree. apply orb_false_iff in Hfree as [Hc Ha].
  by rewrite Hc, (IH Ha).
Qed.


Lemma ContainsByte_append a b c :
  ContainsByte (a +:+ b) c = ContainsByte a c || ContainsByte b c.
Proof.
  induction a as [|x a IH]; simpl; [done |]. by rewrite IH, orb_assoc.
Qed.

Lemma print_result_concat r :
  print_result r = Domain r +:+ "," +:+ Message r +:+ String newline EmptyString.
Proof. reflexivity. Qed.

(** X1. What precedes the last dot does not matter to [topdomain]: the
    label of [front.rest] is the label of [rest]; a string without dot
    is its own label, alone or after a dot. *)
Theorem topdomain_after_dot front rest label :
  ContainsByte label "." = false ->
  topdomain (front +:+ "." +:+ rest) = topdomain rest /\
  topdomain label = Some label /\
  topdomain (front +:+ "." +:+ label) = Some label.
Proof.
  intros Hfree.
  assert (forall a b, topdomain (a +:+ "." +:+ b) = topdomain b) as Hdot.
  { intros a b. rewrite !topdomain_last. simpl. rewrite Split_app, last_app.
    pose proof (Split_nonempty b ".") as Hne.
    destruct (Split b ".") as [|seg segs _] using rev_ind; [done |].
    by rewrite last_snoc. }
  assert (topdomain label = Some label) as Hlabel.
  { rewrite topdomain_last. by rewrite (Split_sep_free _ _ Hfree). }
  split_and!; [apply Hdot | done | by rewrite Hdot].
Qed.

Lemma topdomain_after_dot_witness :
  ContainsByte "uk" "." = false /\
  topdomain ("www.example" +:+ "." +:+ "co.uk") = topdomain "co.uk" /\
  topdomain "uk" = Some "uk" /\
  topdomain ("www.example.co" +:+ "." +:+ "uk") = Some "uk".
Proof.
  split; [reflexivity |].
  destruct (topdomain_after_dot "www.example" "co.uk" "uk" eq_refl) as (H1 & H2 & _).
  destruct (topdomain_after_dot "www.example.co" "co.uk" "uk" eq_refl) as (_ & _ & H3).
  split; [exact H1 |]. split; [exact H2 | exact H3].
Defined.

(** ** The flags and the output of [main] *)



(** X3. When no domain and no message holds a line feed, what [main]
    prints splits at the line feeds into one line [domain,message] per
    outcome, in the order received, and an empty rest: no header, no
    summary, every line terminated. *)
Theorem print_results_lines rs :
  Forall (fun r => ContainsByte (Domain r) newline = false /\
                   ContainsByte (Message r) newline = false) rs ->
  Split (print_results rs) newline =
    ((fun r => Domain r +:+ "," +:+ Message r) <$> rs) ++ [EmptyString].
Proof.
  induction 1 as [|r rest [Hd Hm] _ IH]; [done |].
  simpl print_results. rewrite print_result_concat.
  replace ((Domain r +:+ "," +:+ Message r +:+ String newline EmptyString)
             +:+ print_results rest)
    with ((Domain r +:+ "," +:+ Message r) +:+ String newline (print_results rest)).
  - rewrite Split_app, IH. rewrite Split_sep_free; [done |].
    rewrite !ContainsByte_append, Hd, Hm. reflexivity.
  - rewrite !append_assoc'. simpl. by rewrite ?append_assoc'.
Qed.

Lemma print_results_lines_witness :
  Forall (fun r => ContainsByte (Domain r) newline = false /\
                   ContainsByte (Message r) newline = false) (results final_ab) /\
  Split (print_results (results final_ab)) newline =
    ["a.com,Unregistered"; "b.xx,No RDAP server found"; EmptyString].
Proof.
  assert (Forall (fun r => ContainsByte (Domain r) newline = false /\
                   ContainsByte (Message r) newline = false) (results final_ab)) as Hok
    by (repeat constructor).
  split; [exact Hok |].
  rewrite (print_results_lines (results final_ab) Hok). reflexivity.
Defined.

(** X4. When the domain holds no comma, the first comma-separated field
    of the printed line is the domain. *)
Theorem print_result_domain_field r :
  ContainsByte (Domain r) "," = false ->
  head (Split (print_result r) ",") = Some (Domain r).
Proof.
  intros Hfree. rewrite print_result_concat. simpl.
  by rewrite Split_app, (Split_sep_free _ _ Hfree).
Qed.

Lemma print_result_domain_field_witness :
  ContainsByte "a.com" "," = false /\
  head (Split (print_result {| Domain := "a.com"; Message := "dial tcp: i/o timeout, try again";
                               Result := None |}) ",") = Some "a.com".
Proof.
  split; [reflexivity |].
  exact (print_result_domain_field
           {| Domain := "a.com"; Message := "dial tcp: i/o timeout, try again";
              Result := None |} eq_refl).
Defined.

(** ** More on the registry directory *)

Lemma LookupMap_services_ok services (m : gmap string (list string)) :
  Forall (fun service => length service = 2) services ->
  exists m', LookupMap_services services m = (Some m', None).
Proof.
  intros Hok. revert m. induction Hok as [|service rest Hlen _ IH]; intros m; simpl.
  - eauto.
  - destruct service as [|labels [|urls [|extra more]]]; done || apply IH.
Qed.

Lemma LookupMap_services_first_bad front bad back (m : gmap string (list string)) :
  Forall (fun service => length service = 2) front ->
  length bad <> 2 ->
  LookupMap_services (front ++ bad :: back) m =
    (None, Some ("service is not a tuple. service " +:+ fmt_service bad)).
Proof.
  intros Hok Hbad. revert m. induction Hok as [|service rest Hlen _ IH]; intros m; simpl.
  - destruct bad as [|labels [|urls [|extra more]]]; done.
  - destruct service as [|labels [|urls [|extra more]]]; done || apply IH.
Qed.

(** X5. [LookupMap] returns a directory exactly when the document has
    at least one service and every service is a list of two lists;
    otherwise it returns no directory and an error.  A directory and an
    error never come together. *)
Theorem LookupMap_succeeds_iff dns :
  ((exists m, LookupMap (Some dns) = (Some m, None)) <->
   Services dns <> [] /\ Forall (fun service => length service = 2) (Services dns)) /\
  ((exists err, LookupMap (Some dns) = (None, Some err)) <->
   ~ (Services dns <> [] /\ Forall (fun service => length service = 2) (Services dns))) /\
  ((exists m, LookupMap (Some dns) = (Some m, None)) \/
   (exists err, LookupMap (Some dns) = (None, Some err))).
Proof.
  unfold LookupMap. destruct (Services dns) as [|service rest] eqn:E.
  - simpl. split_and!.
    + split; [by intros [m ?] | by intros [? _]].
    + split; [by intros _ [? _] | eauto].
    + eauto.
  - simpl Nat.eqb. cbv iota.
    destruct (decide (Forall (fun service => length service = 2) (service :: rest)))
      as [Hok|Hbad].
    + destruct (LookupMap_services_ok _ ∅ Hok) as [m Hm]. rewrite Hm.
      split_and!.
      * split; [done | eauto].
      * split; [by intros [err ?] | intros Hc; by destruct Hc].
      * eauto.
    + apply not_Forall_Exists in Hbad; [| intros x; apply _].
      destruct (LookupMap_services_bad _ ∅ Hbad) as (bad & _ & Hlen & Hrun).
      rewrite Hrun. split_and!.
      * split; [by intros [m ?] |]. intros [_ Hok].
        apply Exists_exists in Hbad as (x & Hx & Hxlen).
        rewrite Forall_forall in Hok. by specialize (Hok x Hx).
      * split; [| eauto]. intros _ [_ Hok].
        apply Exists_exists in Hbad as (x & Hx & Hxlen).
        rewrite Forall_forall in Hok. by specialize (Hok x Hx).
      * eauto.
Qed.

(** X6. The error names the first service, in document order, that is
    not a list of two lists: [LookupMap] stops there, whatever follows. *)
Theorem LookupMap_first_bad dns front bad back :
  Services dns = front ++ bad :: back ->
  Forall (fun service => length service = 2) front ->
  length bad <> 2 ->
  LookupMap (Some dns) =
    (None, Some ("service is not a tuple. service " +:+ fmt_service bad)).
Proof.
  intros Hsplit Hok Hbad. unfold LookupMap. rewrite Hsplit.
  destruct (front ++ bad :: back) as [|s l] eqn:E; [by destruct front |].
  simpl Nat.eqb. cbv iota. rewrite <- E.
  by apply LookupMap_services_first_bad.
Qed.

Lemma LookupMap_first_bad_witness :
  Services doc_triple = [ [ ["com"]; ["http://r1"] ] ]
                        ++ [ ["net"]; ["http://r2"]; ["extra"] ] :: [] /\
  Forall (fun service : list (list string) => length service = 2)
    [ [ ["com"]; ["http://r1"] ] ] /\
  length [ ["net"]; ["http://r2"]; ["extra"] ] <> 2 /\
  LookupMap (Some doc_triple) =
    (None, Some "service is not a tuple. service [[net] [http://r2] [extra]]").
Proof.
  assert (Forall (fun service : list (list string) => length service = 2)
            [ [ ["com"]; ["http://r1"] ] ]) as Hok by (repeat constructor).
  assert (length [ ["net"]; ["http://r2"]; ["extra"] ] <> 2) as Hbad by (simpl; lia).
  split; [reflexivity |]. split; [exact Hok |]. split; [exact Hbad |].
  exact (LookupMap_first_bad doc_triple [ [ ["com"]; ["http://r1"] ] ]
           [ ["net"]; ["http://r2"]; ["extra"] ] [] eq_refl Hok Hbad).
Defined.

(** X7. From the document to the request: with the directory that
    [LookupMap] builds, a lookup queries the first endpoint of the last
    service that lists the domain's top-level label, and only that one;
    when no service lists the label, or the last one that does has no
    endpoint, it answers No RDAP server found without a request. *)
Theorem LookupMap_then_lookup dns m limit get domain label :
  LookupMap (Some dns) = (Some m, None) ->
  topdomain domain = Some label ->
  match last_endpoints label (Services dns) with
  | Some (rdap :: _) =>
      exists r,
        lookup {| rdapLookupMap := m; concurrencyLimit := limit |} get domain =
          Some (r, [rdapLookupURL rdap domain]) /\ Domain r = domain
  | _ =>
      lookup {| rdapLookupMap := m; concurrencyLimit := limit |} get domain =
        Some ({| Domain := domain; Message := "No RDAP server found"; Result := None |}, [])
  end.
Proof.
  intros Hrun Htop. unfold LookupMap in Hrun.
  destruct (Nat.eqb (length (Services dns)) 0); [done |].
  pose proof (LookupMap_services_lookup _ _ _ Hrun label) as Hm.
  rewrite lookup_empty in Hm.
  set (worker := {| rdapLookupMap := m; concurrencyLimit := limit |}).
  destruct (last_endpoints label (Services dns)) as [[|rdap rest]|].
  - unfold lookup. by rewrite (task_begin_no_endpoint worker _ _ Htop Hm).
  - unfold lookup. rewrite (task_begin_hit worker _ _ _ _ Htop Hm).
    destruct (task_resume_total domain (get (rdapLookupURL rdap domain))) as (r & Hr & Hd).
    unfold queryRdap. rewrite Hr. eauto.
  - unfold lookup. by rewrite (task_begin_miss worker _ _ Htop Hm).
Qed.

Lemma LookupMap_then_lookup_witness :
  exists m,
    LookupMap (Some doc_twice) = (Some m, None) /\
    topdomain "a.com" = Some "com" /\
    exists r,
      lookup {| rdapLookupMap := m; concurrencyLimit := 256 |} get404 "a.com" =
        Some (r, ["http://r2/domain/a.com"]) /\ Domain r = "a.com".
Proof.
  destruct (LookupMap (Some doc_twice)) as [[m|] [err|]] eqn:Hrun;
    try (vm_compute in Hrun; discriminate).
  exists m. split; [reflexivity |]. split; [reflexivity |].
  exact (LookupMap_then_lookup doc_twice m 256 get404 "a.com" "com" Hrun eq_refl).
Defined.

(** ** More on the lookup goroutine *)

Lemma lookup_requests_spec worker get domain r urls :
  lookup worker get domain = Some (r, urls) -> urls = lookup_requests worker domain.
Proof.
  unfold lookup, lookup_requests.
  destruct (task_begin worker domain) as [[r'|rdap]|]; [| | done].
  - by intros [= _ <-].
  - destruct (task_resume _ _); [| done]. by intros [= _ <-].
Qed.

(** X8. The body of a lookup goroutine never panics: the index into
    the segments of the domain, the index of the first endpoint and the
    dereference of the response are all safe.  It always sends one
    outcome, which carries the domain as given and no RDAP result, and
    it requests at most one URL. *)
Theorem lookup_never_panics worker get domain :
  exists r urls,
    lookup worker get domain = Some (r, urls) /\
    Domain r = domain /\ Result r = None /\ length urls <= 1.
Proof.
  unfold lookup.
  destruct (task_begin_total worker domain) as [[r|rdap] Hb]; rewrite Hb.
  - apply task_begin_Emit in Hb as ->. eexists _, _. split_and!; try done. simpl. lia.
  - destruct (task_resume_total domain (get (rdapLookupURL rdap domain))) as (r & Hr & Hd).
    unfold queryRdap. rewrite Hr. eexists _, _. split_and!; try done.
    destruct (get (rdapLookupURL rdap domain)) as [[resp|] err|resp [err|]];
      simpl in Hr; by injection Hr as <-.
Qed.

(** ** More on [Start] *)

(** X9. [Start] never panics: in no state of any run is a goroutine
    about to send on the closed [Result], to call [wg.Done()] on a zero
    counter, to close [Result] a second time, to index out of range or
    to dereference a nil response. *)
Theorem Start_never_panics worker domains s :
  reachable worker domains s -> ~ panics worker s.
Proof.
  intros Hreach. pose proof (reachable_inv _ _ _ Hreach) as Hinv.
  pose proof (inv_closed _ _ _ Hinv) as Hcl.
  pose proof (inv_wg _ _ _ Hinv) as Hwg.
  pose proof (inv_joined _ _ _ Hinv) as Hj.
  intros [(Hc & r & Hin)|[(Hz & Hin)|[(Hc & Hd)|[(d & Hin & Hb)|(d & rdap & h & Hin & Hr)]]]].
  - rewrite Hc in Hcl. destruct (dispatcher s); try done.
    rewrite (Hj eq_refl) in Hin. by apply elem_of_nil in Hin.
  - destruct (tasks s); [by apply elem_of_nil in Hin | simpl in Hwg; lia].
  - rewrite Hc, Hd in Hcl. done.
  - destruct (task_begin_total worker d) as [a Ha]. congruence.
  - destruct (task_resume_total d h) as (r & Hr' & _). congruence.
Qed.

Lemma Start_never_panics_witness :
  reachable worker1 ["a.com"; "b.xx"] final_ab /\ ~ panics worker1 final_ab.
Proof.
  assert (reachable worker1 ["a.com"; "b.xx"] final_ab) as Hreach.
  { apply (run_sound worker1 schedule_ab). vm_compute. reflexivity. }
  split; [exact Hreach |].
  exact (Start_never_panics worker1 ["a.com"; "b.xx"] final_ab Hreach).
Defined.

(** X10. Over an unbuffered [concurrencies] (capacity 0, flag [-c 0])
    [Start] deadlocks on a non-empty input: no goroutine is started, no
    outcome is sent, [Result] is never closed, and once the dispatcher
    stands at the send of line 163 nothing can move. *)
Theorem Start_unbuffered_deadlock worker d rest s :
  concurrencyLimit worker = 0 ->
  reachable worker (d :: rest) s ->
  tasks s = [] /\ results s = [] /\ closed s = false /\
  (forall d', dispatcher s = AtAcquire d' -> forall s', ~ step worker s s').
Proof.
  intros Hcap Hreach.
  destruct (unbuffered_blocks _ _ _ Hcap Hreach) as (Hts & Hrs & Hcl).
  split_and!; [done | done | by apply Hcl |].
  intros d' Hd s' Hstep.
  pose proof (reachable_inv _ _ _ Hreach) as Hinv.
  pose proof (inv_cap _ _ _ Hinv) as Hc. rewrite Hcap in Hc.
  destruct Hstep; simpl in *; try done; try lia;
    by apply middle_not_nil in Hts.
Qed.

Lemma Start_unbuffered_deadlock_witness :
  concurrencyLimit worker0 = 0 /\
  reachable worker0 ["a.com"] stuck_a /\
  results stuck_a = [] /\ closed stuck_a = false /\
  forall s', ~ step worker0 stuck_a s'.
Proof.
  assert (reachable worker0 ["a.com"] stuck_a) as Hreach.
  { apply (run_sound worker0 [RunDispatcher; RunDispatcher]). reflexivity. }
  split; [reflexivity |]. split; [exact Hreach |].
  destruct (Start_unbuffered_deadlock worker0 "a.com" [] stuck_a eq_refl Hreach)
    as (_ & Hrs & Hcl & Hstuck).
  split; [exact Hrs |]. split; [exact Hcl |]. exact (Hstuck "a.com" eq_refl).
Defined.

Lemma outcome_of_lookup worker domain r :
  outcome_of worker domain r ->
  exists get urls, lookup worker get domain = Some (r, urls).
Proof.
  intros [Hb|(rdap & h & Hb & Hr)]; unfold lookup, queryRdap; rewrite Hb.
  - exists (fun _ => GetFailed None EmptyString). eauto.
  - exists (fun _ => h). rewrite Hr. eauto.
Qed.

Lemma step_sound worker s s' :
  step worker s s' ->
  Forall (fun r => outcome_of worker (Domain r) r) (results s) ->
  Forall (task_sound worker) (tasks s) ->
  Forall (fun r => outcome_of worker (Domain r) r) (results s') /\
  Forall (task_sound worker) (tasks s').
Proof.
  intros Hstep Hrs Hts.
  destruct Hstep; simpl in *;
    rewrite ?Forall_app, ?Forall_cons, ?Forall_nil in *; simpl in *;
    try tauto.
  - pose proof (task_begin_Emit _ _ _ H) as Hr.
    assert (Domain r = domain) as Hd by (by subst r).
    split_and!; try tauto. rewrite Hd. by left.
  - destruct Hts as (? & Hq & ?). pose proof (task_resume_domain _ _ _ H) as Hd.
    split_and!; try done. rewrite Hd. right. eauto.
Qed.

(** X11. Every outcome that [Start] delivers belongs to an input domain
    and is one that the goroutine body gives for that domain under some
    answer of the network: the directory lookup, the status switch and
    the error text are not mixed up between goroutines. *)
Theorem Start_outcomes_are_lookups worker domains s :
  reachable worker domains s ->
  Forall (fun r => Domain r ∈ domains /\
                   exists get urls, lookup worker get (Domain r) = Some (r, urls))
         (results s).
Proof.
  intros Hreach.
  assert (Forall (fun r => outcome_of worker (Domain r) r) (results s) /\
          Forall (task_sound worker) (tasks s)) as [Hrs _].
  { eapply (rtc_ind_r (fun s => Forall (fun r => outcome_of worker (Domain r) r) (results s) /\
                               Forall (task_sound worker) (tasks s)) (init domains));
      [by split; constructor | | exact Hreach].
    intros y z _ Hstep [? ?]. by eapply step_sound. }
  pose proof (inv_perm _ _ _ (reachable_inv _ _ _ Hreach)) as Hperm.
  apply Forall_forall. intros r Hin. rewrite Forall_forall in Hrs. split.
  - rewrite Hperm. apply elem_of_app. left. by apply list_elem_of_fmap_2.
  - by apply outcome_of_lookup, Hrs.
Qed.

Lemma Start_outcomes_are_lookups_witness :
  reachable worker1 ["a.com"; "b.xx"] final_ab /\
  Forall (fun r => Domain r ∈ ["a.com"; "b.xx"] /\
                   exists get urls, lookup worker1 get (Domain r) = Some (r, urls))
         (results final_ab).
Proof.
  assert (reachable worker1 ["a.com"; "b.xx"] final_ab) as Hreach.
  { apply (run_sound worker1 schedule_ab). vm_compute. reflexivity. }
  split; [exact Hreach |].
  exact (Start_outcomes_are_lookups worker1 ["a.com"; "b.xx"] final_ab Hreach).
Defined.

Lemma step_requests worker domains s s' :
  step worker s s' ->
  Permutation (domains ≫= lookup_requests worker)
    (requests s ++ (not_started s ≫= lookup_requests worker)) ->
  Permutation (domains ≫= lookup_requests worker)
    (requests s' ++ (not_started s' ≫= lookup_requests worker)).
Proof.
  intros Hstep Hperm.
  destruct Hstep; unfold not_started in *; simpl in *;
    autorewrite with start in *; simpl in *;
    try (etrans; [exact Hperm |]; solve_Permutation).
  - assert (lookup_requests worker domain = []) as Hl
      by (unfold lookup_requests; by rewrite H).
    rewrite Hl in Hperm. etrans; [exact Hperm |]. solve_Permutation.
  - assert (lookup_requests worker domain = [rdapLookupURL rdap domain]) as Hl
      by (unfold lookup_requests; by rewrite H).
    rewrite Hl in Hperm. etrans; [exact Hperm |]. solve_Permutation.
Qed.

(** X12. No retry and no second endpoint: the URLs [Start] has passed
    to [http.Get] are, each at most once per input domain, the URLs that
    [lookup] requests for the input domains; once [Result] is closed
    they are exactly those.  Domains without endpoint are never
    requested. *)
Theorem Start_requests_once worker domains s :
  reachable worker domains s ->
  requests s ⊆+ (domains ≫= lookup_requests worker) /\
  (closed s = true ->
   Permutation (requests s) (domains ≫= lookup_requests worker)).
Proof.
  intros Hreach.
  assert (Permutation (domains ≫= lookup_requests worker)
            (requests s ++ (not_started s ≫= lookup_requests worker))) as Hperm.
  { eapply (rtc_ind_r (fun s => Permutation (domains ≫= lookup_requests worker)
                        (requests s ++ (not_started s ≫= lookup_requests worker)))
              (init domains)); [| | exact Hreach].
    - unfold not_started. simpl. by rewrite app_nil_r.
    - intros y z _ Hstep Hy. by eapply step_requests. }
  split.
  - rewrite Hperm. by apply submseteq_inserts_r.
  - intros Hcl. pose proof (reachable_inv _ _ _ Hreach) as Hinv.
    apply (closed_returned _ _ _ Hinv) in Hcl.
    destruct (returned_complete _ _ _ Hinv Hcl) as (_ & Hq & Hts & _).
    unfold not_started in Hperm. rewrite Hq, Hts, Hcl in Hperm. simpl in Hperm.
    by rewrite app_nil_r in Hperm.
Qed.

Lemma Start_requests_once_witness :
  reachable worker1 ["a.com"; "b.xx"] final_ab /\
  Permutation (requests final_ab) ["http://r1/domain/a.com"].
Proof.
  assert (reachable worker1 ["a.com"; "b.xx"] final_ab) as Hreach.
  { apply (run_sound worker1 schedule_ab). vm_compute. reflexivity. }
  split; [exact Hreach |].
  exact (proj2 (Start_requests_once worker1 ["a.com"; "b.xx"] final_ab Hreach) eq_refl).
Defined.

Lemma idle_pending ts :
  sum_list_with task_in_flight ts = 0 -> ts ≫= task_pending = [].
Proof.
  induction ts as [|t ts IH]; simpl; [done |].
  destruct t; simpl; try lia. intros Hz. by apply IH.
Qed.

Lemma step_in_order worker domains s s' :
  concurrencyLimit worker = 1 ->
  Inv worker domains s ->
  step worker s s' ->
  domains = (Domain <$> results s) ++ (tasks s ≫= task_pending)
            ++ dispatcher_pending (dispatcher s) ++ unchecked s ->
  domains = (Domain <$> results s') ++ (tasks s' ≫= task_pending)
            ++ dispatcher_pending (dispatcher s') ++ unchecked s'.
Proof.
  intros Hone [_ Hsem Hcap _ _ _ _ _ _] Hstep Hord.
  rewrite Hone in Hcap.
  destruct Hstep;
    try match goal with
    | H : task_begin _ _ = Some (Emit _) |- _ => apply task_begin_Emit in H as ->
    | H : task_resume _ _ = Some _ |- _ => apply task_resume_domain in H as <-
    end;
    start_simpl; try done; try lia.
  - by rewrite <- app_assoc.
  - rewrite (idle_pending ts1) in * by lia. simpl in *.
    by rewrite <- !app_assoc.
Qed.

(** X13. With one slot ([-c 1]) the outcomes come in the order of the
    input: at any moment the domains of the outcomes sent are the first
    domains of the input, and once [Result] is closed they are the input. *)
Theorem Start_in_order_with_one_slot worker domains s :
  concurrencyLimit worker = 1 ->
  reachable worker domains s ->
  (Domain <$> results s) `prefix_of` domains /\
  (closed s = true -> Domain <$> results s = domains).
Proof.
  intros Hone Hreach.
  assert (reachable worker domains s ->
          domains = (Domain <$> results s) ++ (tasks s ≫= task_pending)
                    ++ dispatcher_pending (dispatcher s) ++ unchecked s) as Hord.
  { eapply (rtc_ind_r (fun s => reachable worker domains s ->
              domains = (Domain <$> results s) ++ (tasks s ≫= task_pending)
                        ++ dispatcher_pending (dispatcher s) ++ unchecked s)
              (init domains)); [done | | exact Hreach].
    intros y z Hy Hstep IH _.
    eapply step_in_order; [done | by apply reachable_inv | done | by apply IH]. }
  specialize (Hord Hreach). split.
  - eexists. exact Hord.
  - intros Hcl. pose proof (reachable_inv _ _ _ Hreach) as Hinv.
    apply (closed_returned _ _ _ Hinv) in Hcl.
    destruct (returned_complete _ _ _ Hinv Hcl) as (_ & Hq & Hts & _).
    rewrite Hq, Hts, Hcl in Hord. simpl in Hord. by rewrite app_nil_r in Hord.
Qed.

Lemma Start_in_order_with_one_slot_witness :
  concurrencyLimit worker1 = 1 /\
  reachable worker1 ["a.com"; "b.xx"] final_ab /\
  Domain <$> results final_ab = ["a.com"; "b.xx"].
Proof.
  assert (reachable worker1 ["a.com"; "b.xx"] final_ab) as Hreach.
  { apply (run_sound worker1 schedule_ab). vm_compute. reflexivity. }
  split; [reflexivity |]. split; [exact Hreach |].
  exact (proj2 (Start_in_order_with_one_slot worker1 ["a.com"; "b.xx"] final_ab
                  eq_refl Hreach) eq_refl).
Defined.

Lemma run_net_sound worker get schedule s s' :
  run_net worker get schedule s = Some s' -> rtc (step worker) s s'.
Proof.
  revert s. induction schedule as [|choice rest IH]; intros s; simpl.
  - intros [= <-]. apply rtc_refl.
  - destruct (run_net1 worker get choice s) as [s1|] eqn:E; [| done].
    intros Hrest. eapply rtc_l; [| by apply IH].
    destruct choice as [|i h|i];
      [ exact (run1_sound _ RunDispatcher _ _ E)
      | exact (run1_sound _ (RunTask i (answer get s i)) _ _ E)
      | exact (run1_sound _ (Handoff i) _ _ E) ].
Qed.

Lemma run_net1_agrees worker get choice s s' :
  run_net1 worker get choice s = Some s' ->
  Forall (fun r => lookup_outcome worker get (Domain r) = [r]) (results s) /\
  Forall (task_agrees worker get) (tasks s) ->
  Forall (fun r => lookup_outcome worker get (Domain r) = [r]) (results s') /\
  Forall (task_agrees worker get) (tasks s').
Proof.
  destruct s as [q dp ts c w rs cl rq], choice as [|i h|i]; simpl.
  - unfold run_dispatcher; simpl. destruct dp; try done.
    + destruct q; by intros [= <-].
    + by intros [= <-].
    + destruct (Nat.ltb c (concurrencyLimit worker)); [| done]. by intros [= <-].
    + intros [= <-] [Hrs Hts]. simpl. split; [done |].
      apply Forall_app. split; [done | by repeat constructor].
    + destruct w; [| done]. by intros [= <-].
    + destruct cl; [done |]. by intros [= <-].
  - unfold run_task, answer, set_task, drop_task; simpl.
    destruct (ts !! i) as [t|] eqn:E; [| done].
    pose proof (take_drop_middle _ _ _ E) as Hmid.
    intros Hrun [Hrs Hts]. rewrite <- Hmid in Hts.
    apply Forall_app in Hts as [Hts1 Hts2].
    apply Forall_cons in Hts2 as [Ht Hts2].
    destruct t; simpl in *.
    + destruct (task_begin worker domain) as [[r|rdap]|] eqn:Hb; [| | done];
        injection Hrun as <-; simpl; (split; [done |]);
        apply Forall_app; (split; [done |]); apply Forall_cons; (split; [| done]);
        simpl; [| done].
      pose proof (task_begin_Emit _ _ _ Hb) as Hr.
      assert (Domain r = domain) as -> by (by subst r).
      unfold lookup_outcome, lookup. by rewrite Hb.
    + destruct (task_resume domain (queryRdap_return (get (rdapLookupURL rdap domain))))
        as [r|] eqn:Hr; [| done].
      injection Hrun as <-; simpl. split; [done |].
      apply Forall_app. split; [done |]. apply Forall_cons. split; [| done].
      simpl. rewrite (task_resume_domain _ _ _ Hr).
      unfold lookup_outcome, lookup, queryRdap. by rewrite Ht, Hr.
    + destruct cl; [done |]. injection Hrun as <-; simpl. split.
      * apply Forall_app. split; [done | by repeat constructor].
      * apply Forall_app. split; [done |]. by apply Forall_cons.
    + destruct c; [done |]. injection Hrun as <-; simpl. split; [done |].
      apply Forall_app. split; [done |]. by apply Forall_cons.
    + destruct w; [done |]. injection Hrun as <-; simpl. split; [done |].
      by apply Forall_app.
  - unfold run_handoff, set_task; simpl.
    destruct dp; try done.
    destruct (ts !! i) as [[| | | |]|] eqn:E; try done.
    destruct (concurrencyLimit worker); [| done].
    pose proof (take_drop_middle _ _ _ E) as Hmid.
    intros [= <-] [Hrs Hts]. simpl. split; [done |].
    rewrite <- Hmid in Hts.
    apply Forall_app in Hts as [Hts1 Hts2].
    apply Forall_cons in Hts2 as [_ Hts2].
    apply Forall_app. split; [done |]. by apply Forall_cons.
Qed.

Lemma bind_singletons {A B} (f : A -> list B) (g : B -> A) (l : list B) :
  Forall (fun r => f (g r) = [r]) l -> (g <$> l) ≫= f = l.
Proof.
  induction 1 as [|r l Hr _ IH]; [done |].
  rewrite fmap_cons, bind_cons, Hr, IH. done.
Qed.

(** X14. Concurrency does not change the outcomes: against a network
    that answers by URL, whatever the schedule, the outcomes [Start] has
    delivered when [Result] is closed are those of [lookup] on each of
    the input domains, in some order. *)
Theorem Start_agrees_with_lookup worker get domains schedule s :
  run_net worker get schedule (init domains) = Some s ->
  closed s = true ->
  Permutation (results s) (domains ≫= lookup_outcome worker get).
Proof.
  intros Hrun Hcl.
  assert (Forall (fun r => lookup_outcome worker get (Domain r) = [r]) (results s) /\
          Forall (task_agrees worker get) (tasks s)) as [Hrs _].
  { assert (forall s0,
              Forall (fun r => lookup_outcome worker get (Domain r) = [r]) (results s0) /\
              Forall (task_agrees worker get) (tasks s0) ->
              run_net worker get schedule s0 = Some s ->
              Forall (fun r => lookup_outcome worker get (Domain r) = [r]) (results s) /\
              Forall (task_agrees worker get) (tasks s)) as Hgen.
    { clear. induction schedule as [|choice rest IH]; intros s0 H0; simpl.
      - by intros [= <-].
      - destruct (run_net1 worker get choice s0) as [s1|] eqn:E; [| done].
        apply IH. by eapply run_net1_agrees. }
    apply (Hgen (init domains)); [by split; constructor | done]. }
  assert (reachable worker domains s) as Hreach by (by eapply run_net_sound).
  pose proof (reachable_inv _ _ _ Hreach) as Hinv.
  apply (closed_returned _ _ _ Hinv) in Hcl.
  destruct (returned_complete _ _ _ Hinv Hcl) as (_ & _ & _ & _ & _ & Hperm).
  rewrite Hperm. by rewrite (bind_singletons _ _ _ Hrs).
Qed.

Lemma Start_agrees_with_lookup_witness :
  run_net worker1 get404 schedule_ab (init ["a.com"; "b.xx"]) = Some final_ab /\
  closed final_ab = true /\
  Permutation (results final_ab)
    (["a.com"; "b.xx"] ≫= lookup_outcome worker1 get404).
Proof.
  assert (run_net worker1 get404 schedule_ab (init ["a.com"; "b.xx"]) = Some final_ab)
    as Hrun by (vm_compute; reflexivity).
  split; [exact Hrun |]. split; [reflexivity |].
  exact (Start_agrees_with_lookup worker1 get404 ["a.com"; "b.xx"] schedule_ab final_ab
           Hrun eq_refl).
Defined.

(** The scheduler can take every step of [Start]. *)
Lemma run1_complete worker s s' :
  step worker s s' -> exists choice, run1 worker choice s = Some s'.
Proof.
  assert (forall (ts1 ts2 : list Task) t,
            (ts1 ++ t :: ts2) !! length ts1 = Some t /\
            forall t', set_task (length ts1) t' (ts1 ++ t :: ts2) = ts1 ++ t' :: ts2)
    as Hmid.
  { intros ts1 ts2 t. split; [by apply list_lookup_middle |].
    intros t'. unfold set_task.
    rewrite take_app_length. rewrite (cons_middle t ts1 ts2), app_assoc.
    rewrite drop_app_length'; [done |]. rewrite length_app. simpl. lia. }
  assert (forall (ts1 ts2 : list Task) t,
            drop_task (length ts1) (ts1 ++ t :: ts2) = ts1 ++ ts2) as Hdrop.
  { intros ts1 ts2 t. unfold drop_task.
    rewrite take_app_length. rewrite (cons_middle t ts1 ts2), app_assoc.
    rewrite drop_app_length'; [done |]. rewrite length_app. simpl. lia. }
  destruct 1.
  1-4, 6-8: exists RunDispatcher; simpl; unfold run_dispatcher; simpl; try done.
  - destruct (Nat.ltb_spec c (concurrencyLimit worker)); [done | lia].
  - exists (Handoff (length ts1)). simpl. unfold run_handoff. simpl.
    destruct (Hmid ts1 ts2 TRelease) as [-> Hset]. rewrite H. by rewrite Hset.
  - exists (RunTask (length ts1) (GetFailed None EmptyString)). simpl.
    unfold run_task. simpl. destruct (Hmid ts1 ts2 (TLookup domain)) as [-> Hset].
    rewrite H. by rewrite Hset.
  - exists (RunTask (length ts1) (GetFailed None EmptyString)). simpl.
    unfold run_task. simpl. destruct (Hmid ts1 ts2 (TLookup domain)) as [-> Hset].
    rewrite H. by rewrite Hset.
  - exists (RunTask (length ts1) h). simpl.
    unfold run_task. simpl. destruct (Hmid ts1 ts2 (TQuery domain rdap)) as [-> Hset].
    rewrite H. by rewrite Hset.
  - exists (RunTask (length ts1) (GetFailed None EmptyString)). simpl.
    unfold run_task. simpl. destruct (Hmid ts1 ts2 (TSend r)) as [-> Hset].
    by rewrite Hset.
  - exists (RunTask (length ts1) (GetFailed None EmptyString)). simpl.
    unfold run_task. simpl. destruct (Hmid ts1 ts2 TRelease) as [-> Hset].
    by rewrite Hset.
  - exists (RunTask (length ts1) (GetFailed None EmptyString)). simpl.
    unfold run_task. simpl. destruct (Hmid ts1 ts2 TDone) as [-> _].
    by rewrite Hdrop.
Qed.

(** ** Regular expressions: matching by derivatives is matching *)

Lemma append_eq_empty (a b : string) :
  a +:+ b = EmptyString -> a = EmptyString /\ b = EmptyString.
Proof. destruct a; simpl; [done | discriminate]. Qed.

Lemma append_eq_String (a b : string) c s :
  a +:+ b = String c s ->
  (a = EmptyString /\ b = String c s) \/
  (exists a', a = String c a' /\ s = a' +:+ b).
Proof.
  destruct a as [|x a]; simpl; [by left |].
  intros [= -> <-]. right. eauto.
Qed.

Lemma nullable_Matches r : nullable r = true <-> Matches r EmptyString.
Proof.
  split.
  - induction r; simpl; intros Hn; try discriminate.
    + constructor.
    + apply andb_true_iff in Hn as [H1 H2].
      change EmptyString with (EmptyString +:+ EmptyString).
      constructor; auto.
    + apply orb_true_iff in Hn as [H1|H2]; [apply MAltL | apply MAltR]; auto.
    + constructor.
  - intros Hm. remember EmptyString as s eqn:Hs.
    induction Hm; simpl; try done.
    + apply append_eq_empty in Hs as [-> ->]. by rewrite IHHm1, IHHm2.
    + by rewrite IHHm.
    + rewrite IHHm by done. apply orb_true_r.
Qed.

Lemma Matches_Star_cons r c s :
  Matches (Star r) (String c s) ->
  exists s1 s2, s = s1 +:+ s2 /\ Matches r (String c s1) /\ Matches (Star r) s2.
Proof.
  intros Hm. remember (Star r) as re eqn:Hre. remember (String c s) as w eqn:Hw.
  induction Hm; try done.
  injection Hre as ->.
  apply append_eq_String in Hw as [[-> ->]|(a' & -> & ->)].
  - by apply IHHm2.
  - eauto.
Qed.

Lemma Matches_Concat_inv r1 r2 s :
  Matches (Concat r1 r2) s ->
  exists s1 s2, s = s1 +:+ s2 /\ Matches r1 s1 /\ Matches r2 s2.
Proof. inversion 1; subst; eauto. Qed.

Lemma Matches_Alternate_inv r1 r2 s :
  Matches (Alternate r1 r2) s -> Matches r1 s \/ Matches r2 s.
Proof. inversion 1; subst; eauto. Qed.

Lemma Matches_CharClass_inv ranges s :
  Matches (CharClass ranges) s ->
  exists c, s = String c EmptyString /\ in_class ranges c = true.
Proof. inversion 1; subst; eauto. Qed.

Lemma Matches_EmptyMatch_inv s : Matches EmptyMatch s -> s = EmptyString.
Proof. by inversion 1. Qed.

Lemma Matches_NoMatch_inv s : ~ Matches NoMatch s.
Proof. inversion 1. Qed.

Lemma derive_Matches c r s : Matches (derive c r) s <-> Matches r (String c s).
Proof.
  revert s. induction r as [| |ranges|r1 IH1 r2 IH2|r1 IH1 r2 IH2|r IH]; intros s; simpl.
  - split; intros Hm; by apply Matches_NoMatch_inv in Hm.
  - split; intros Hm; [by apply Matches_NoMatch_inv in Hm |].
    by apply Matches_EmptyMatch_inv in Hm.
  - destruct (in_class ranges c) eqn:Hc.
    + split; intros Hm.
      * apply Matches_EmptyMatch_inv in Hm as ->. by constructor.
      * apply Matches_CharClass_inv in Hm as (c' & [= <- ->] & _). constructor.
    + split; intros Hm; [by apply Matches_NoMatch_inv in Hm |].
      apply Matches_CharClass_inv in Hm as (c' & [= <- ->] & Hc'). congruence.
  - assert (forall w, Matches (Concat (derive c r1) r2) w ->
                      Matches (Concat r1 r2) (String c w)) as Hleft.
    { intros w Hm. apply Matches_Concat_inv in Hm as (s1 & s2 & -> & H1 & H2).
      apply IH1 in H1. change (String c (s1 +:+ s2)) with (String c s1 +:+ s2).
      by constructor. }
    destruct (nullable r1) eqn:Hn.
    + split; intros Hm.
      * apply Matches_Alternate_inv in Hm as [Hl|Hr]; [by apply Hleft |].
        apply IH2 in Hr. apply nullable_Matches in Hn.
        change (String c s) with (EmptyString +:+ String c s). by constructor.
      * apply Matches_Concat_inv in Hm as (s1 & s2 & Heq & H1 & H2).
        symmetry in Heq.
        apply append_eq_String in Heq as [[-> ->]|(a' & -> & ->)].
        -- apply MAltR. by apply IH2.
        -- apply MAltL. constructor; [by apply IH1 | done].
    + split; [by apply Hleft |]. intros Hm.
      apply Matches_Concat_inv in Hm as (s1 & s2 & Heq & H1 & H2).
      symmetry in Heq.
      apply append_eq_String in Heq as [[-> ->]|(a' & -> & ->)].
      * apply nullable_Matches in H1. congruence.
      * constructor; [by apply IH1 | done].
  - split; intros Hm; apply Matches_Alternate_inv in Hm as [Hl|Hr];
      (apply MAltL; by apply IH1) || (apply MAltR; by apply IH2).
  - split; intros Hm.
    + apply Matches_Concat_inv in Hm as (s1 & s2 & -> & H1 & H2).
      apply IH in H1. change (String c (s1 +:+ s2)) with (String c s1 +:+ s2).
      by constructor.
    + apply Matches_Star_cons in Hm as (s1 & s2 & -> & H1 & H2).
      constructor; [by apply IH | done].
Qed.

(** [MatchString] decides membership in the language of the pattern. *)
Lemma MatchString_Matches re s : MatchString re s = true <-> Matches re s.
Proof.
  revert re. induction s as [|c s IH]; intros re; simpl.
  - apply nullable_Matches.
  - rewrite IH. apply derive_Matches.
Qed.

(** ** The language of [regexDomain] *)

Lemma Matches_Star_absorb {B} r (f : string -> B) :
  (forall x u, Matches r x -> f (x +:+ u) = f u) ->
  forall y u, Matches (Star r) y -> f (y +:+ u) = f u.
Proof.
  intros Hr y u Hm. remember (Star r) as re eqn:Hre. revert u.
  induction Hm; try done; intros u.
  injection Hre as ->. rewrite append_assoc', Hr by done. by apply IHHm2.
Qed.

Lemma Matches_Star_snoc r t x :
  Matches (Star r) t -> Matches r x -> Matches (Star r) (t +:+ x).
Proof.
  intros Hm Hx. remember (Star r) as re eqn:Hre.
  induction Hm; try done; injection Hre as ->.
  - simpl. rewrite <- (append_empty_r x). constructor; [done | constructor].
  - rewrite append_assoc'. constructor; [done | by apply IHHm2].
Qed.

Lemma Matches_Plus_snoc r a x :
  Matches (Plus r) a -> Matches r x -> Matches (Plus r) (a +:+ x).
Proof.
  intros Ha Hx. apply Matches_Concat_inv in Ha as (s1 & s2 & -> & H1 & H2).
  rewrite append_assoc'. constructor; [done | by apply Matches_Star_snoc].
Qed.

Lemma Matches_Plus_one r x : Matches r x -> Matches (Plus r) x.
Proof.
  intros Hx. rewrite <- (append_empty_r x). constructor; [done | constructor].
Qed.

Lemma N_of_ascii_inj a b : N_of_ascii a = N_of_ascii b -> a = b.
Proof.
  intros Heq. rewrite <- (ascii_N_embedding a), <- (ascii_N_embedding b).
  by rewrite Heq.
Qed.

Lemma Matches_Literal c s : Matches (Literal c) s <-> s = String c EmptyString.
Proof.
  split.
  - intros Hm. apply Matches_CharClass_inv in Hm as (c' & -> & Hc).
    unfold in_class in Hc. simpl in Hc. rewrite orb_false_r in Hc.
    apply andb_true_iff in Hc as [H1 H2].
    apply N.leb_le in H1, H2. f_equal. apply N_of_ascii_inj. lia.
  - intros ->. constructor. unfold in_class. simpl.
    by rewrite N.leb_refl.
Qed.

Lemma Matches_Star_class ranges s :
  Matches (Star (CharClass ranges)) s <-> all_bytes (in_class ranges) s = true.
Proof.
  split.
  - intros Hm. remember (Star (CharClass ranges)) as re eqn:Hre.
    induction Hm; try done. injection Hre as ->.
    apply Matches_CharClass_inv in Hm1 as (c & -> & Hc). simpl.
    rewrite Hc. by apply IHHm2.
  - induction s as [|c s IH]; simpl; [constructor |].
    intros Hall. apply andb_true_iff in Hall as [Hc Hs].
    change (String c s) with (String c EmptyString +:+ s).
    constructor; [by constructor | by apply IH].
Qed.

#[local] Arguments in_class : simpl never.

Local Abbreviation re_alnum := (CharClass alnum).
Local Abbreviation re_more := (Concat (Literal "-") (Plus (CharClass alnum))).
Local Abbreviation re_group :=
  (Concat (Plus (CharClass alnum))
     (Star (Concat (Literal "-") (Plus (CharClass alnum))))).

Lemma host_label_alnum a :
  Matches (Plus re_alnum) a ->
  forall b u, host_label b (a +:+ u) = host_label true u.
Proof.
  intros Ha b u. apply Matches_Concat_inv in Ha as (x & y & -> & Hx & Hy).
  apply Matches_CharClass_inv in Hx as (c & -> & Hc).
  rewrite append_assoc'. simpl. rewrite Hc.
  apply (Matches_Star_absorb re_alnum (host_label true)); [| done].
  intros x' u' Hx'. apply Matches_CharClass_inv in Hx' as (c' & -> & Hc').
  simpl. by rewrite Hc'.
Qed.

Lemma host_label_more x :
  Matches re_more x -> forall u, host_label true (x +:+ u) = host_label true u.
Proof.
  intros Hx u. apply Matches_Concat_inv in Hx as (h & a & -> & Hh & Ha).
  apply Matches_Literal in Hh as ->. rewrite append_assoc'. simpl.
  by apply host_label_alnum.
Qed.

Lemma host_label_group g :
  Matches re_group g -> forall b u, host_label b (g +:+ u) = host_label true u.
Proof.
  intros Hg b u. apply Matches_Concat_inv in Hg as (a & t & -> & Ha & Ht).
  rewrite append_assoc', (host_label_alnum _ Ha).
  apply (Matches_Star_absorb re_more (host_label true)); [| done].
  intros x u' Hx. by apply host_label_more.
Qed.

Lemma Matches_more_snoc x c :
  Matches re_more x -> in_class alnum c = true ->
  Matches re_more (x +:+ String c EmptyString).
Proof.
  intros Hx Hc. apply Matches_Concat_inv in Hx as (h & a & -> & Hh & Ha).
  rewrite append_assoc'. constructor; [done |].
  apply Matches_Plus_snoc; [done | by constructor].
Qed.

Lemma Matches_group_snoc_alnum p c :
  Matches re_group p -> in_class alnum c = true ->
  Matches re_group (p +:+ String c EmptyString).
Proof.
  intros Hp Hc. apply Matches_Concat_inv in Hp as (a & t & -> & Ha & Ht).
  assert (t = EmptyString \/ Matches (Star re_more) (t +:+ String c EmptyString))
    as [->|Hsnoc].
  { clear a Ha. remember (Star re_more) as re eqn:Hre.
    induction Ht; try done; [by left |]. injection Hre as ->. right.
    destruct (IHHt2 eq_refl) as [->|Hrest].
    - rewrite append_empty_r. rewrite <- (append_empty_r (s1 +:+ String c EmptyString)).
      constructor; [by apply Matches_more_snoc | constructor].
    - rewrite append_assoc'. by constructor. }
  - rewrite append_empty_r. rewrite <- (append_empty_r (a +:+ String c EmptyString)).
    constructor; [| constructor].
    apply Matches_Plus_snoc; [done | by constructor].
  - rewrite append_assoc'. by constructor.
Qed.

Lemma Matches_group_snoc_hyphen p c :
  Matches re_group p -> in_class alnum c = true ->
  Matches re_group ((p +:+ "-") +:+ String c EmptyString).
Proof.
  intros Hp Hc. apply Matches_Concat_inv in Hp as (a & t & -> & Ha & Ht).
  rewrite !append_assoc'. constructor; [done |].
  apply Matches_Star_snoc; [done |].
  change ("-" +:+ String c EmptyString)
    with (String "-" EmptyString +:+ String c EmptyString).
  constructor; [by apply Matches_Literal |].
  apply Matches_Plus_one. by constructor.
Qed.

Lemma host_label_extend s :
  (host_label true s = true ->
   forall p, Matches re_group p -> Matches re_group (p +:+ s)) /\
  (host_label false s = true ->
   forall p, Matches re_group p -> Matches re_group ((p +:+ "-") +:+ s)).
Proof.
  induction s as [|c s [IHt IHf]]; simpl.
  - split; [| done]. intros _ p Hp. by rewrite append_empty_r.
  - destruct (in_class alnum c) eqn:Hc.
    + split; intros Hs p Hp.
      * replace (p +:+ String c s) with ((p +:+ String c EmptyString) +:+ s)
          by (by rewrite append_assoc').
        apply IHt; [done | by apply Matches_group_snoc_alnum].
      * replace ((p +:+ "-") +:+ String c s)
          with (((p +:+ "-") +:+ String c EmptyString) +:+ s)
          by (by rewrite !append_assoc').
        apply IHt; [done | by apply Matches_group_snoc_hyphen].
    + destruct (Ascii.eqb_spec c "-") as [->|Hne]; [| done].
      split; [| done]. intros Hs p Hp.
      replace (p +:+ String "-" s) with ((p +:+ "-") +:+ s)
        by (by rewrite append_assoc').
      by apply IHf.
Qed.

(** The first part of [regexDomain] accepts the host labels. *)
Lemma host_label_Matches s :
  host_label false s = true <-> Matches (Plus re_group) s.
Proof.
  split.
  - destruct s as [|c s]; simpl; [done |].
    destruct (in_class alnum c) eqn:Hc.
    + intros Hs. apply Matches_Plus_one.
      change (String c s) with (String c EmptyString +:+ s).
      apply (proj1 (host_label_extend s) Hs).
      rewrite <- (append_empty_r (String c EmptyString)).
      constructor; [| constructor]. apply Matches_Plus_one. by constructor.
    + by destruct (Ascii.eqb c "-").
  - intros Hm. apply Matches_Concat_inv in Hm as (g & y & -> & Hg & Hy).
    rewrite <- (append_empty_r (g +:+ y)), append_assoc'.
    rewrite (host_label_group _ Hg).
    rewrite (Matches_Star_absorb re_group (host_label true)); [done | | done].
    intros x u Hx. by apply host_label_group.
Qed.

Lemma Matches_Repeat2_class ranges s :
  Matches (Repeat2 (CharClass ranges)) s <->
  2 <= String.length s /\ all_bytes (in_class ranges) s = true.
Proof.
  split.
  - intros Hm. apply Matches_Concat_inv in Hm as (x & r & -> & Hx & Hr).
    apply Matches_Concat_inv in Hr as (y & z & -> & Hy & Hz).
    apply Matches_CharClass_inv in Hx as (c1 & -> & Hc1).
    apply Matches_CharClass_inv in Hy as (c2 & -> & Hc2).
    apply Matches_Star_class in Hz. simpl. rewrite Hc1, Hc2, Hz. split; [lia | done].
  - destruct s as [|c1 [|c2 z]]; simpl; try (intros [? _]; lia).
    intros [_ Hall]. apply andb_true_iff in Hall as [Hc1 Hall].
    apply andb_true_iff in Hall as [Hc2 Hz].
    change (String c1 (String c2 z))
      with (String c1 EmptyString +:+ String c2 EmptyString +:+ z).
    constructor; [by constructor |].
    constructor; [by constructor | by apply Matches_Star_class].
Qed.

Lemma host_label_no_dot b s : host_label b s = true -> ContainsByte s "." = false.
Proof.
  revert b. induction s as [|c s IH]; intros b; simpl; [done |].
  destruct (Ascii.eqb_spec c ".") as [->|Hne]; simpl; [done |].
  destruct (in_class alnum c); [apply IH |].
  destruct (Ascii.eqb c "-"); [| done].
  intros Hs. apply andb_true_iff in Hs as [_ Hs]. by eapply IH.
Qed.

Lemma lower_no_dot s : all_bytes (in_class lower) s = true -> ContainsByte s "." = false.
Proof.
  induction s as [|c s IH]; simpl; [done |].
  intros Hall. apply andb_true_iff in Hall as [Hc Hs].
  destruct (Ascii.eqb_spec c ".") as [->|Hne]; simpl; [done | by apply IH].
Qed.

Lemma regexDomain_Matches w :
  Matches regexDomain w <->
  exists label tld,
    w = label +:+ "." +:+ tld /\ host_label false label = true /\
    2 <= String.length tld /\ all_bytes (in_class lower) tld = true.
Proof.
  unfold regexDomain. split.
  - intros Hm. apply Matches_Concat_inv in Hm as (label & rest & -> & Hl & Hr).
    apply Matches_Concat_inv in Hr as (dot & tld & -> & Hd & Ht).
    apply Matches_Literal in Hd as ->.
    apply host_label_Matches in Hl. apply Matches_Repeat2_class in Ht as [Hlen Hall].
    by exists label, tld.
  - intros (label & tld & -> & Hl & Hlen & Hall).
    constructor; [by apply host_label_Matches |].
    change ("." +:+ tld) with (String "." EmptyString +:+ tld).
    constructor; [by apply Matches_Literal | by apply Matches_Repeat2_class].
Qed.

Lemma find_word_spec words :
  (find_word words = EmptyString /\
   Forall (fun word => MatchString regexDomain word = false) words) \/
  (exists front back,
     words = front ++ find_word words :: back /\
     MatchString regexDomain (find_word words) = true /\
     Forall (fun word => MatchString regexDomain word = false) front).
Proof.
  induction words as [|word rest IH]; simpl.
  - left. by split.
  - destruct (MatchString regexDomain word) eqn:Hw.
    + right. exists [], rest. by split_and!.
    + destruct IH as [[He Hall]|(front & back & Heq & Hm & Hall)].
      * left. split; [done | by constructor].
      * right. exists (word :: front), back. split_and!; [| done | by constructor].
        simpl. by rewrite <- Heq.
Qed.

(** X15. The strings [regexDomain] matches are the names [label.tld]
    where the label is made of lower-case letters, digits and hyphens,
    begins and ends with a letter or digit and has no two hyphens in a
    row, and the tld is two or more lower-case letters.  Upper case,
    sub-domains, a trailing dot or line feed are all refused. *)
Theorem regexDomain_language w :
  MatchString regexDomain w = true <->
  exists label tld,
    w = label +:+ "." +:+ tld /\ host_label false label = true /\
    2 <= String.length tld /\ all_bytes (in_class lower) tld = true.
Proof. rewrite MatchString_Matches. apply regexDomain_Matches. Qed.

(** X16. [find] returns the first comma-separated word of the line that
    [regexDomain] matches, a non-empty string; it returns the empty
    string exactly when no word matches. *)
Theorem find_first_match line :
  (find line = EmptyString /\
   Forall (fun word => MatchString regexDomain word = false) (Split line ",")) \/
  (find line <> EmptyString /\
   exists front back,
     Split line "," = front ++ find line :: back /\
     MatchString regexDomain (find line) = true /\
     Forall (fun word => MatchString regexDomain word = false) front).
Proof.
  unfold find.
  destruct (find_word_spec (Split line ",")) as [?|(front & back & Heq & Hm & Hall)];
    [by left | right].
  split; [| eauto]. intros He. rewrite He in Hm. done.
Qed.

(** X17. What [find] extracts is fit for [domainlookup]: a non-empty
    result has exactly two segments between dots, [topdomain] returns
    the second one, two or more lower-case letters, and the result holds
    neither comma nor line feed, so that it survives the flag list and
    the output line. *)
Theorem find_topdomain line :
  find line <> EmptyString ->
  exists label tld,
    Split (find line) "." = [label; tld] /\
    topdomain (find line) = Some tld /\
    2 <= String.length tld /\ all_bytes (in_class lower) tld = true /\
    ContainsByte (find line) "," = false /\
    ContainsByte (find line) newline = false.
Proof.
  intros Hne. unfold find in *.
  destruct (find_word_spec (Split line ",")) as [[He _]|(_ & _ & _ & Hm & _)]; [done |].
  apply MatchString_Matches, regexDomain_Matches in Hm
    as (label & tld & Heq & Hl & Hlen & Hall).
  rewrite Heq. exists label, tld.
  pose proof (host_label_no_dot _ _ Hl) as Hld.
  pose proof (lower_no_dot _ Hall) as Htd.
  assert (Split (label +:+ "." +:+ tld) "." = [label; tld]) as Hsplit.
  { simpl. by rewrite Split_app, (Split_sep_free _ _ Hld), (Split_sep_free _ _ Htd). }
  assert (forall c, in_class alnum c = false -> in_class lower c = false ->
                    c <> "-"%char -> c <> "."%char ->
                    ContainsByte (label +:+ "." +:+ tld) c = false) as Hfree.
  { intros c Ha Hlo Hh Hd.
    change (label +:+ "." +:+ tld) with (label +:+ String "." tld).
    rewrite ContainsByte_append. cbn [ContainsByte].
    assert (forall b s, host_label b s = true -> ContainsByte s c = false) as H1.
    { intros b s. revert b. induction s as [|x s IH]; intros b; simpl; [done |].
      destruct (Ascii.eqb_spec x c) as [->|_]; simpl.
      - rewrite Ha. by destruct (Ascii.eqb_spec c "-").
      - destruct (in_class alnum x); [apply IH |].
        destruct (Ascii.eqb x "-"); [| done].
        intros Hs. apply andb_true_iff in Hs as [_ Hs]. by eapply IH. }
    assert (forall s, all_bytes (in_class lower) s = true -> ContainsByte s c = false)
      as H2.
    { induction s as [|x s IH]; simpl; [done |].
      intros Hs. apply andb_true_iff in Hs as [Hx Hs].
      destruct (Ascii.eqb_spec x c) as [->|_]; simpl; [congruence | by apply IH]. }
    rewrite (H1 _ _ Hl), (H2 _ Hall).
    destruct (Ascii.eqb_spec "." c); [congruence | done]. }
  split_and!; try done.
  - rewrite topdomain_last, Hsplit. done.
  - by apply Hfree.
  - by apply Hfree.
Qed.

Lemma find_topdomain_witness :
  find "x,foo.com,bar.net" <> EmptyString /\
  find "x,foo.com,bar.net" = "foo.com" /\
  exists label tld,
    Split (find "x,foo.com,bar.net") "." = [label; tld] /\
    topdomain (find "x,foo.com,bar.net") = Some tld /\
    2 <= String.length tld /\ all_bytes (in_class lower) tld = true /\
    ContainsByte (find "x,foo.com,bar.net") "," = false /\
    ContainsByte (find "x,foo.com,bar.net") newline = false.
Proof.
  assert (find "x,foo.com,bar.net" <> EmptyString) as Hne
    by (vm_compute; discriminate).
  split; [exact Hne |]. split; [vm_compute; reflexivity |].
  exact (find_topdomain "x,foo.com,bar.net" Hne).
Defined.

(** ** When the limit does not bite *)

Lemma in_flight_accounted ts :
  sum_list_with task_in_flight ts <=
  length (ts ≫= task_pending) + sum_list_with task_finished ts.
Proof.
  induction ts as [|t ts IH]; [simpl; lia |].
  rewrite bind_cons, length_app.
  destruct t;
    cbn [sum_list_with task_in_flight task_finished task_pending length]; lia.
Qed.

(** X18. With at least as many slots as domains the limit never holds
    the dispatcher back: whenever it stands at the send of line 163
    there is room in [concurrencies].  The default of 256 slots throttles
    nothing below 257 domains. *)
Theorem Start_enough_slots worker domains s d :
  length domains <= concurrencyLimit worker ->
  reachable worker domains s ->
  dispatcher s = AtAcquire d ->
  concurrencies s < concurrencyLimit worker /\ exists s', step worker s s'.
Proof.
  intros Hroom Hreach Hd.
  pose proof (reachable_inv _ _ _ Hreach) as [Hperm Hsem _ _ _ _ _ Hfin _].
  assert (concurrencies s < concurrencyLimit worker) as Hlt.
  { apply Permutation_length in Hperm.
    unfold pending, in_flight in *. rewrite Hd in *. simpl in *.
    rewrite !length_app, length_fmap in Hperm. simpl in Hperm.
    pose proof (in_flight_accounted (tasks s)). lia. }
  split; [done |].
  destruct s as [q dp ts c w rs cl rq]; simpl in *; subst dp.
  eexists. by apply step_acquire.
Qed.

Lemma Start_enough_slots_witness :
  length ["a.com"] <= concurrencyLimit worker1 /\
  reachable worker1 ["a.com"] stuck_a /\
  concurrencies stuck_a < concurrencyLimit worker1.
Proof.
  assert (length ["a.com"] <= concurrencyLimit worker1) as Hroom by (simpl; lia).
  assert (reachable worker1 ["a.com"] stuck_a) as Hreach.
  { apply (run_sound worker1 [RunDispatcher; RunDispatcher]). reflexivity. }
  split; [exact Hroom |]. split; [exact Hreach |].
  exact (proj1 (Start_enough_slots worker1 ["a.com"] stuck_a "a.com" Hroom Hreach eq_refl)).
Defined.
